(** * Cross-account classification of resource-policy principals

    A shallow embedding of
    [security_monkey/auditors/resource_policy_auditor.py] and
    [security_monkey/auditors/sns.py].

    The class attribute [OBJECT_STORE = defaultdict(dict)] is a two-level
    dictionary: table name -> key -> set of account identifiers.  It is
    threaded explicitly as a state; reading an absent table through the
    [defaultdict] creates it, as Python does.  Calls to the issue sink
    ([add_issue]) are collected in a trace, and Python exceptions are
    results of the computation. *)

From Stdlib Require Import ZArith String Ascii List.
From stdpp Require Import base option strings list gmap fin_maps fin_sets.

Import ListNotations.
Local Open Scope string_scope.
Local Open Scope Z_scope.

(** ** Data *)

(** [OBJECT_STORE]: table name -> key -> set of account identifiers. *)
Abbreviation Store := (gmap string (gmap string (gset string))).

#[local] Set Warnings "-register-all".

(** JSON-like configuration values ([item.config], [latest_config]). *)
Inductive json : Type :=
| JNull
| JBool (b : bool)
| JNum (z : Z)
| JStr (s : string)
| JList (l : list json)
| JDict (d : list (string * json)).

(** Python truthiness ([if not p]). *)
Definition truthy (v : json) : bool :=
  match v with
  | JNull => false
  | JBool b => b
  | JNum z => negb (z =? 0)
  | JStr s => negb (String.eqb s "")
  | JList l => match l with [] => false | _ => true end
  | JDict d => match d with [] => false | _ => true end
  end.

(** [v == {}]: only a mapping without entries equals the empty dict. *)
Definition eq_empty_dict (v : json) : bool :=
  match v with
  | JDict [] => true
  | _ => false
  end.

(** The audited item: the name of its account and its configuration. *)
Record Item : Type := mkItem {
  account : string;
  config : gmap string json
}.

(** A principal reference, policyuniverse's [Principal(category, value)]. *)
Record Who : Type := mkWho {
  category : string;
  value : string
}.

Record Statement : Type := mkStatement {
  effect : string;
  actions : gset string;
  statement_whos_allowed : list Who
}.

(** What the code reads of a policyuniverse [Policy] object. *)
Record PolicyT : Type := mkPolicy {
  is_internet_accessible : bool;
  whos_allowed : list Who;
  statements : list Statement
}.

(** What the code reads of a policyuniverse [ARN] object; [None] is
    Python's [None]. *)
Record ArnT : Type := mkArn {
  tech : option string;
  account_number : option string;
  arn_name : option string;
  error : bool;
  root : bool;
  service : bool
}.

(** Rows of the datastore. *)
Record Account : Type := mkAccount {
  account_name : string;
  identifier : string;
  third_party : bool
}.

(** A stored item as the loaders read it: [item.name],
    [item.account.identifier], the string entries of [item.latest_config]
    and, for NAT gateways, [latest_config['nat_gateway_addresses']]. *)
Record StoredItem : Type := mkStoredItem {
  technology : string;
  item_name : option string;
  item_account_identifier : string;
  latest_config : gmap string string;
  nat_gateway_addresses : option (list (gmap string (option string)))
}.

Record NetworkWhitelistEntry : Type := mkWhitelistEntry {
  entry_cidr : option string
}.

Record Database : Type := mkDatabase {
  db_accounts : list Account;
  db_items : list StoredItem;
  db_whitelist : list NetworkWhitelistEntry
}.

(** The findings handed to the issue sink: a call
    [self.add_issue(score, tag, item, notes=notes)] of the [Auditor] base
    class, and the root-access finding of [_check_cross_account_root]. *)
Inductive Call : Type :=
| add_issue (score : Z) (tag : string) (item : Item) (notes : option string)
| root_access_finding (item : Item) (arn : ArnT) (granted : gset string).

Inductive exn : Type :=
| KeyError
| ValueError
| AttributeError.

(** The value [inspect_who] returns: a set of tier names on every
    recognised category, a bare string otherwise. *)
Inductive PyVal : Type :=
| PySet (s : gset string)
| PyStr (s : string).

(** ** The monad: store, exceptions, trace of calls *)

Record Outcome (A : Type) : Type := mkOutcome {
  result : exn + A;
  store : Store;
  calls : list Call
}.
Arguments mkOutcome {A} _ _ _.
Arguments result {A} _.
Arguments store {A} _.
Arguments calls {A} _.

Definition M (A : Type) : Type := Store -> Outcome A.

Definition ret {A} (a : A) : M A := fun s => mkOutcome (inr a) s [].

Definition raise {A} (e : exn) : M A := fun s => mkOutcome (inl e) s [].

Definition bind {A B} (m : M A) (f : A -> M B) : M B :=
  fun s =>
    let o := m s in
    match result o with
    | inl e => mkOutcome (inl e) (store o) (calls o)
    | inr a =>
        let o' := f a (store o) in
        mkOutcome (result o') (store o') (calls o ++ calls o')
    end.

Definition emit (c : Call) : M unit := fun s => mkOutcome (inr tt) s [c].

Declare Scope py_scope.
Delimit Scope py_scope with py.
Notation "x <- c1 ;; c2" := (bind c1 (fun x => c2))
  (at level 100, c1 at next level, right associativity) : py_scope.
Notation "c1 ;;; c2" := (bind c1 (fun _ => c2))
  (at level 100, right associativity) : py_scope.
Local Open Scope py_scope.

(** [for x in l: body x] *)
Fixpoint for_each {A} (l : list A) (body : A -> M unit) : M unit :=
  match l with
  | [] => ret tt
  | x :: l' => body x ;;; for_each l' body
  end.

(** A loop that updates a local variable. *)
Fixpoint for_fold {A B} (l : list A) (body : B -> A -> M B) (acc : B) : M B :=
  match l with
  | [] => ret acc
  | x :: l' => acc' <- body acc x ;; for_fold l' body acc'
  end.

(** [OBJECT_STORE[t]] on the [defaultdict(dict)]: an absent table is
    created empty and returned. *)
Definition get_table (t : string) : M (gmap string (gset string)) :=
  fun s =>
    match s !! t with
    | Some tbl => mkOutcome (inr tbl) s []
    | None => mkOutcome (inr ∅) (<[t := ∅]> s) []
    end.

(** The table object is shared with the store: a mutation of it is a write
    to the store under the same name. *)
Definition put_table (t : string) (tbl : gmap string (gset string)) : M unit :=
  fun s => mkOutcome (inr tt) (<[t := tbl]> s) [].

(** [d[k]] on a plain dict. *)
Definition getitem {V} (d : gmap string V) (k : string) : M V :=
  match d !! k with
  | Some v => ret v
  | None => raise KeyError
  end.

(** ** [add] *)

(** [if not key]: [None] and the empty string are falsy. *)
Definition key_falsy (key : option string) : bool :=
  match key with
  | None => true
  | Some k => String.eqb k ""
  end.

Definition add (to : gmap string (gset string)) (key : option string) (value : string)
  : gmap string (gset string) :=
  if key_falsy key then to
  else
    match key with
    | None => to
    | Some k =>
        match to !! k with
        | Some accounts => <[k := accounts ∪ {[value]}]> to
        | None => <[k := {[value]}]> to
        end
    end.

(** [add(cls.OBJECT_STORE[t], key, value)]: the table is fetched (and
    created) before [add] looks at the key. *)
Definition add_to (t : string) (key : option string) (value : string) : M unit :=
  tbl <- get_table t ;;
  put_table t (add tbl key value).

(** ** Python operators on the values involved *)

(** [x in s] for a set of strings; [None] is in no such set. *)
Definition in_set (x : option string) (s : gset string) : bool :=
  match x with
  | Some a => bool_decide (a ∈ s)
  | None => false
  end.

(** [needle in hay] for two strings: substring test. *)
Fixpoint str_contains (needle hay : string) : bool :=
  String.prefix needle hay ||
  match hay with
  | EmptyString => false
  | String _ hay' => str_contains needle hay'
  end.

(** [x in v] *)
Definition py_in (x : string) (v : PyVal) : bool :=
  match v with
  | PySet s => bool_decide (x ∈ s)
  | PyStr h => str_contains x h
  end.

(** [v.intersection(s)]: a string has no such method. *)
Definition py_intersection (v : PyVal) (s : gset string) : M (gset string) :=
  match v with
  | PySet s' => ret (s' ∩ s)
  | PyStr _ => raise AttributeError
  end.

(** [userid.split(':')[0]] *)
Fixpoint split_colon_head (s : string) : string :=
  match s with
  | EmptyString => EmptyString
  | String c s' =>
      if Ascii.eqb c ":"%char then EmptyString else String c (split_colon_head s')
  end.

Definition record_friendly_cross_account_access_issue (item : Item) (who : Who) : M unit :=
  let tag := "Friendly Cross Account Access" in
  let notes := "Access provided to " ++ category who ++ ":" ++ value who ++ "." in
  emit (add_issue 0 tag item (Some notes)).

Definition record_thirdparty_cross_account_access_issue (item : Item) (who : Who) : M unit :=
  let tag := "Friendly Third Party Cross Account Access" in
  let notes := "Access provided to " ++ category who ++ ":" ++ value who ++ "." in
  emit (add_issue 0 tag item (Some notes)).

Definition record_unknown_cross_account_access_issue (item : Item) (who : Who) : M unit :=
  let tag := "Unknown Cross Account Access" in
  let notes := "Access provided to " ++ category who ++ ":" ++ value who ++ "." in
  emit (add_issue 10 tag item (Some notes)).

Definition record_arn_parse_issue (item : Item) (arn : string) : M unit :=
  let tag := "Auditor could not parse ARN" in
  let notes := arn in
  emit (add_issue 3 tag item (Some notes)).

(** Modelled from the spec: [_check_cross_account_root] belongs to the
    [Auditor] base class, whose file is not part of the sources.  The spec
    has the root cross-account check "emit a dedicated root-access finding
    listing the granted actions"; the call is kept with its arguments. *)
Definition _check_cross_account_root (item : Item) (arn : ArnT) (granted : gset string)
  : M unit :=
  emit (root_access_finding item arn granted).

(** ** [inspect_who_account] *)

Definition inspect_who_account (account_number : option string) (same : option Account)
  : M string :=
  if decide (account_number = Some "000000000000") then ret "SAME"
  else
    match same with
    | None => raise AttributeError
    | Some home =>
        if decide (account_number = Some (identifier home)) then ret "SAME"
        else
          accounts <- get_table "ACCOUNTS" ;;
          friendly <- getitem accounts "FRIENDLY" ;;
          if in_set account_number friendly then ret "FRIENDLY"
          else
            accounts <- get_table "ACCOUNTS" ;;
            thirdparty <- getitem accounts "THIRDPARTY" ;;
            if in_set account_number thirdparty then ret "THIRDPARTY"
            else ret "UNKNOWN"
    end.

(** [for account in accounts: values.add(inspect_who_account(account, same))] *)
Definition add_account_tiers (accounts : gset string) (same : option Account)
    (values : gset string) : M (gset string) :=
  for_fold (elements accounts)
    (fun values account =>
       t <- inspect_who_account (Some account) same ;;
       ret (values ∪ {[t]}))
    values.

Definition inspect_who_generic (key : string) (item : option string) (same : option Account)
  : M (gset string) :=
  tbl <- get_table key ;;
  match item with
  | None => ret {["UNKNOWN"]}
  | Some k =>
      match tbl !! k with
      | None => ret {["UNKNOWN"]}
      | Some _ =>
          tbl' <- get_table key ;;
          accounts <- getitem tbl' k ;;
          add_account_tiers accounts same ∅
      end
  end.

Definition inspect_who_s3 (bucket_name : option string) (same : option Account) :=
  inspect_who_generic "s3" bucket_name same.

Definition inspect_who_userid (userid : string) (same : option Account) :=
  inspect_who_generic "userid" (Some (split_colon_head userid)) same.

Definition inspect_who_vpc (vpcid : string) (same : option Account) :=
  inspect_who_generic "vpc" (Some vpcid) same.

Definition inspect_who_vpce (vpcid : string) (same : option Account) :=
  inspect_who_generic "vpce" (Some vpcid) same.

(** ** Vocabulary of the statements *)

(** What [OBJECT_STORE[t]] evaluates to. *)
Definition table (s : Store) (t : string) : gmap string (gset string) :=
  default ∅ (s !! t).

(** The table names the auditor uses. *)
Definition table_names : list string :=
  ["s3"; "userid"; "vpc"; "vpce"; "cidr"; "ACCOUNTS"].

(** [s'] is [s] up to tables of the auditor that were absent in [s] and
    are empty in [s']. *)
Definition grows (s s' : Store) : Prop :=
  ∀ t, s' !! t = s !! t ∨ (s !! t = None ∧ s' !! t = Some ∅ ∧ t ∈ table_names).

(** Two stores that read alike through the [defaultdict]. *)
Definition same_view (s s' : Store) : Prop :=
  ∀ t, table s t = table s' t.

(** A computation that creates at most empty tables, emits only calls
    satisfying [P], and depends on the store only through what
    [OBJECT_STORE[t]] reads. *)
Definition lookup_only {A} (P : Call -> Prop) (m : M A) : Prop :=
  ∀ s,
    grows s (store (m s)) ∧
    Forall P (calls (m s)) ∧
    ∀ s', same_view s s' →
          result (m s') = result (m s) ∧ calls (m s') = calls (m s) ∧
          same_view (store (m s)) (store (m s')).

(** The account registry is in place: both sets exist. *)
Definition registry (s : Store) (friendly thirdparty : gset string) : Prop :=
  ∃ accounts,
    s !! "ACCOUNTS" = Some accounts ∧
    accounts !! "FRIENDLY" = Some friendly ∧
    accounts !! "THIRDPARTY" = Some thirdparty.

(** The spec's [resolveAccount], step by step. *)
Definition resolveAccount (friendly thirdparty : gset string) (home : Account)
    (accountId : option string) : string :=
  if decide (accountId = Some "000000000000") then "SAME"
  else if decide (accountId = Some (identifier home)) then "SAME"
  else if in_set accountId friendly then "FRIENDLY"
  else if in_set accountId thirdparty then "THIRDPARTY"
  else "UNKNOWN".

Definition is_parse_issue (c : Call) : Prop :=
  ∃ item notes, c = add_issue 3 "Auditor could not parse ARN" item notes.

Definition no_call (c : Call) : Prop := False.

(** ** Instances of the external parsers

    [policyuniverse.arn.ARN] and [ipaddr.IPNetwork] are libraries the
    auditor calls; the auditor is embedded over any such parsers (see the
    section below).  The instances here are used to run it on concrete
    policies. *)

(** [s.split(c)] *)
Fixpoint split_on (c : ascii) (s : string) : list string :=
  match s with
  | EmptyString => [EmptyString]
  | String a s' =>
      let r := split_on c s' in
      if Ascii.eqb a c then EmptyString :: r
      else match r with
           | h :: t => String a h :: t
           | [] => [String a EmptyString]
           end
  end.

Fixpoint join_with (sep : string) (l : list string) : string :=
  match l with
  | [] => EmptyString
  | [x] => x
  | x :: l' => x ++ sep ++ join_with sep l'
  end.

Definition is_digit (c : ascii) : bool :=
  let n := N_of_ascii c in ((48 <=? n) && (n <=? 57))%N.

Fixpoint all_digits (s : string) : bool :=
  match s with
  | EmptyString => true
  | String c s' => is_digit c && all_digits s'
  end.

Fixpoint ends_with (suffix s : string) : bool :=
  String.eqb suffix s ||
  match s with
  | EmptyString => false
  | String _ s' => ends_with suffix s'
  end.

(** Shapes policyuniverse's [ARN] accepts, in the order it tries them: a
    six-field [arn:partition:tech:region:account:name], a bare account
    number, an AWS service name under [amazonaws.com] or [amazon.com].
    Here anything else sets [error]. *)
Definition sample_ARN (input : string) : ArnT :=
  let as_service (prefix : string) : option ArnT :=
    match split_on "."%char prefix with
    | [a] => if String.eqb a "" then None
             else Some (mkArn (Some prefix) None None false false true)
    | [a; b] => if String.eqb a "" || String.eqb b "" then None
                else Some (mkArn (Some prefix) None None false false true)
    | _ => None
    end in
  let service_of (suffix : string) : option ArnT :=
    if ends_with suffix input
    then as_service (String.substring 0 (String.length input - String.length suffix) input)
    else None in
  let failed := mkArn None None None true false false in
  match split_on ":"%char input with
  | "arn" :: partition :: t :: region :: acct :: n :: rest =>
      let name := join_with ":" (n :: rest) in
      let acct_ok :=
        String.eqb acct "" || String.eqb acct "*" || String.eqb acct "cloudfront"
        || String.eqb acct "aws"
        || (Nat.eqb (String.length acct) 12 && all_digits acct) in
      if acct_ok && negb (String.eqb name "")
      then mkArn (Some t) (Some acct) (Some name) false
                 (String.eqb t "iam" && String.eqb name "root") false
      else failed
  | _ =>
      if all_digits input && negb (String.eqb input "")
         && Nat.eqb (String.length input mod 12) 0
      then mkArn None (Some input) None false false false
      else
        match service_of ".amazonaws.com" with
        | Some a => a
        | None =>
            match service_of ".amazon.com" with
            | Some a => a
            | None => failed
            end
        end
  end.

(** IPv4 networks in dotted-quad notation with an optional prefix length,
    as the first and last address of the range. *)
Record Net4 : Type := mkNet4 {
  network : Z;
  broadcast : Z
}.

Fixpoint decimal_acc (s : string) (acc : Z) : Z :=
  match s with
  | EmptyString => acc
  | String c s' => decimal_acc s' (10 * acc + (Z.of_N (N_of_ascii c) - 48))
  end.

Definition decimal (s : string) : option Z :=
  if all_digits s && negb (String.eqb s "") then Some (decimal_acc s 0) else None.

Definition octet (s : string) : option Z :=
  match decimal s with
  | Some n => if n <=? 255 then Some n else None
  | None => None
  end.

Definition ipv4_address (s : string) : option Z :=
  match split_on "."%char s with
  | [a; b; c; d] =>
      match octet a, octet b, octet c, octet d with
      | Some a, Some b, Some c, Some d =>
          Some (Z.lor (Z.shiftl a 24) (Z.lor (Z.shiftl b 16) (Z.lor (Z.shiftl c 8) d)))
      | _, _, _, _ => None
      end
  | _ => None
  end.

Definition net4_of (ip prefixlen : Z) : Net4 :=
  let hostmask := Z.ones (32 - prefixlen) in
  let net := Z.land ip (Z.lxor (Z.ones 32) hostmask) in
  mkNet4 net (Z.lor net hostmask).

Definition sample_IPNetwork (s : string) : option Net4 :=
  match split_on "/"%char s with
  | [a] =>
      match ipv4_address a with
      | Some ip => Some (net4_of ip 32)
      | None => None
      end
  | [a; p] =>
      match ipv4_address a, decimal p with
      | Some ip, Some len => if len <=? 32 then Some (net4_of ip len) else None
      | _, _ => None
      end
  | _ => None
  end.

(** [a in b] on two networks: [b] starts no later and ends no earlier. *)
Definition sample_net_in (a b : Net4) : bool :=
  (network b <=? network a) && (broadcast a <=? broadcast b).

(** ** A datastore, the store built from it, and items to audit *)

Definition sample_home : Account := mkAccount "home" "111111111111" false.

Definition sample_db : Database :=
  mkDatabase
    [sample_home;
     mkAccount "friend" "222222222222" false;
     mkAccount "vendor" "333333333333" true]
    [mkStoredItem "s3" (Some "bucket1") "222222222222" ∅ None;
     mkStoredItem "vpc" None "111111111111"
       (<["id" := "vpc-1"]> (<["cidr_block" := "10.0.0.0/8"]> ∅)) None;
     mkStoredItem "natgateway" None "333333333333" ∅
       (Some [<["public_ip" := Some "52.1.2.3"]> (<["private_ip" := None]> ∅)])]
    [mkWhitelistEntry (Some "192.168.0.0/16"); mkWhitelistEntry None].

(** What [prep_for_audit] builds from [sample_db], starting from the
    empty store (see [sample_store_built]). *)
Definition sample_store : Store :=
  <["s3" := {["bucket1" := {["222222222222"]}]}]>
  (<["cidr" := <["52.1.2.3" := {["333333333333"]}]>
               (<["192.168.0.0/16" := {["000000000000"]}]>
               {["10.0.0.0/8" := {["111111111111"]}]})]>
  (<["ACCOUNTS" := <["FRIENDLY" := {["111111111111"; "222222222222"]}]>
                   {["THIRDPARTY" := {["333333333333"]}]}]>
  {["vpc" := {["vpc-1" := {["111111111111"]}]}]})).

(** [sample_store] with the two tables no stored item filled. *)
Definition sample_full_store : Store :=
  <["userid" := ∅]> (<["vpce" := ∅]> sample_store).

Definition sample_friendly : gset string := {["111111111111"; "222222222222"]}.
Definition sample_thirdparty : gset string := {["333333333333"]}.

Definition sample_item : Item :=
  mkItem "home" {["Policy" := JDict [("Version", JStr "2012-10-17")]]}.

(** [dpath.util.values] on a plain key: the value under it. *)
Definition sample_dpath_values (cfg : gmap string json) (key : string)
  : option (list json) :=
  (λ v, [v]) <$> cfg !! key.

(** A policy parser that reads the document at hand as [p]. *)
Definition parsed_as (p : PolicyT) : json -> PolicyT := fun _ => p.

(** An unknown role, the wildcard principal, a service principal, and a
    network outside every stored range. *)
Definition policy_mixed : PolicyT :=
  mkPolicy false
    [mkWho "principal" "arn:aws:iam::999999999999:role/x";
     mkWho "principal" "*";
     mkWho "principal" "lambda.amazonaws.com";
     mkWho "cidr" "8.8.8.8/32"]
    [].

(** A service name met as a condition value, hence of category [arn]. *)
Definition policy_service_condition : PolicyT :=
  mkPolicy false [mkWho "arn" "lambda.amazonaws.com"] [].

Definition policy_odd_category : PolicyT :=
  mkPolicy false [mkWho "tag" "team-a"]
    [mkStatement "Allow" {["sns:Publish"]} [mkWho "tag" "team-a"]].

Definition policy_root : PolicyT :=
  mkPolicy false [mkWho "principal" "arn:aws:iam::333333333333:root"]
    [mkStatement "Allow" {["sns:Publish"]}
       [mkWho "principal" "arn:aws:iam::333333333333:root";
        mkWho "principal" "arn:aws:iam::333333333333:role/deploy"];
     mkStatement "Deny" {["sns:Subscribe"]}
       [mkWho "principal" "arn:aws:iam::333333333333:root"]].

(** A friendly role, a third-party role and the home account itself. *)
Definition policy_partners : PolicyT :=
  mkPolicy false
    [mkWho "principal" "arn:aws:iam::222222222222:role/foo";
     mkWho "principal" "arn:aws:iam::333333333333:role/bar";
     mkWho "account" "111111111111"]
    [].

(** An internet-accessible policy naming an account nobody knows. *)
Definition policy_exposed : PolicyT :=
  mkPolicy true [mkWho "account" "999999999999"] [].

(** [sample_db] with a NAT gateway address that has no ['private_ip']. *)
Definition sample_db_broken : Database :=
  mkDatabase (db_accounts sample_db)
    (db_items sample_db ++
     [mkStoredItem "natgateway" None "333333333333" ∅
        (Some [{["public_ip" := Some "52.9.9.9"]}])])
    (db_whitelist sample_db).

Definition sample_json_dumps (l : list string) : string :=
  "[" ++ join_with ", " l ++ "]".

(** ** The auditor, over its collaborators *)

Section Auditor.

#[local] Set Default Proof Using "Type".

(** The datastore behind [Account.query], [Item.query] and
    [NetworkWhitelistEntry.query]. *)
Variable db : Database.

(** [policyuniverse.arn.ARN(input)] *)
Variable ARN : string -> ArnT.

(** [ipaddr.IPNetwork(s)], [None] when it raises [ValueError], and
    [a in b] on two networks. *)
Variable Net : Type.
Variable IPNetwork : string -> option Net.
Variable net_in : Net -> Net -> bool.

(** [dpath.util.values(config, key, separator='$')], [None] when it
    raises [PathNotFound], and [policyuniverse.policy.Policy(p)]. *)
Variable dpath_values : gmap string json -> string -> option (list json).
Variable Policy : json -> PolicyT.

(** [self.policy_keys] *)
Variable policy_keys : list string.

(** [self.i_am_singular], [policy.internet_accessible_actions()] and
    [json.dumps] on the list of a set of actions. *)
Variable i_am_singular : string.
Variable internet_accessible_actions : PolicyT -> gset string.
Variable json_dumps : list string -> string.

(** [set_solver], kept away from the collaborators a goal does not
    mention. *)
Ltac sets :=
  try clear db; try clear policy_keys; try clear Policy; try clear dpath_values;
  try clear ARN; try clear net_in; try clear IPNetwork; try clear Net;
  try clear json_dumps; try clear internet_accessible_actions; try clear i_am_singular;
  set_solver.

(** *** Building the store *)

Definition _load_related_items (technology_name : string) : list StoredItem :=
  List.filter (fun i => String.eqb (technology i) technology_name) (db_items db).

Definition _load_s3_buckets : M unit :=
  let results := _load_related_items "s3" in
  for_each results (fun item =>
    add_to "s3" (item_name item) (item_account_identifier item)).

Definition _load_vpcs : M unit :=
  let results := _load_related_items "vpc" in
  for_each results (fun item =>
    add_to "vpc" (latest_config item !! "id") (item_account_identifier item) ;;;
    add_to "cidr" (latest_config item !! "cidr_block") (item_account_identifier item)).

Definition _load_vpces : M unit :=
  let results := _load_related_items "endpoint" in
  for_each results (fun item =>
    add_to "vpce" (latest_config item !! "id") (item_account_identifier item)).

(** [add(cls.OBJECT_STORE['cidr'], address[k], ...)]: the table is
    fetched first, then [address[k]] may raise [KeyError]. *)
Definition add_address (address : gmap string (option string)) (k : string)
    (value : string) : M unit :=
  tbl <- get_table "cidr" ;;
  key <- getitem address k ;;
  put_table "cidr" (add tbl key value).

Definition _load_natgateways : M unit :=
  let results := _load_related_items "natgateway" in
  for_each results (fun gateway =>
    for_each (default [] (nat_gateway_addresses gateway)) (fun address =>
      add_address address "public_ip" (item_account_identifier gateway) ;;;
      add_address address "private_ip" (item_account_identifier gateway))).

Definition _load_network_whitelist : M unit :=
  let whitelist_entries := db_whitelist db in
  for_each whitelist_entries (fun entry =>
    add_to "cidr" (entry_cidr entry) "000000000000").

Definition _load_userids : M unit :=
  let user_results := _load_related_items "iamuser" in
  let role_results := _load_related_items "iamrole" in
  for_each user_results (fun item =>
    add_to "userid" (latest_config item !! "UserId") (item_account_identifier item)) ;;;
  for_each role_results (fun item =>
    add_to "userid" (latest_config item !! "RoleId") (item_account_identifier item)).

(** [cls.OBJECT_STORE['ACCOUNTS'][k] = set()] *)
Definition reset_accounts (k : string) : M unit :=
  tbl <- get_table "ACCOUNTS" ;;
  put_table "ACCOUNTS" (<[k := ∅]> tbl).

Definition _load_accounts : M unit :=
  let friendly_accounts := List.filter (fun a => negb (third_party a)) (db_accounts db) in
  let third_party_accounts := List.filter (fun a => third_party a) (db_accounts db) in
  reset_accounts "FRIENDLY" ;;;
  for_each friendly_accounts (fun account =>
    add_to "ACCOUNTS" (Some "FRIENDLY") (identifier account)) ;;;
  reset_accounts "THIRDPARTY" ;;;
  for_each third_party_accounts (fun account =>
    add_to "ACCOUNTS" (Some "THIRDPARTY") (identifier account)).

(** [if not self.OBJECT_STORE]: the store is falsy when it has no table
    name at all. *)
Definition prep_for_audit : M unit :=
  fun s =>
    if decide (s = ∅) then
      (_load_s3_buckets ;;;
       _load_userids ;;;
       _load_accounts ;;;
       _load_vpcs ;;;
       _load_vpces ;;;
       _load_natgateways ;;;
       _load_network_whitelist) s
    else ret tt s.

(** *** Policies of an item *)

(** [dpath.util.values] returns a list, so the [else] branch of
    [isinstance(policy, list)] is not taken. *)
Definition load_policies (item : Item) : list PolicyT :=
  flat_map (fun key =>
    match dpath_values (config item) key with
    | None => []
    | Some policy =>
        flat_map (fun p =>
          if truthy p then
            match p with
            | JList pl => map Policy pl
            | _ => [Policy p]
            end
          else []) policy
    end) policy_keys.

(** *** The resolver *)

Definition parse_network (s : string) : M Net :=
  match IPNetwork s with
  | Some n => ret n
  | None => raise ValueError
  end.

(** The body of [for str_cidr in self.OBJECT_STORE['cidr']]. *)
Definition cidr_entry (cidr : string) (same : option Account) (values : gset string)
    (str_cidr : string) : M (gset string) :=
  query <- parse_network cidr ;;
  stored <- parse_network str_cidr ;;
  if net_in query stored then
    tbl <- get_table "cidr" ;;
    accounts <- getitem tbl str_cidr ;;
    add_account_tiers accounts same values
  else ret values.

Definition inspect_who_cidr (cidr : string) (same : option Account) : M (gset string) :=
  tbl <- get_table "cidr" ;;
  values <- for_fold (map_to_list tbl).*1 (cidr_entry cidr same) ∅ ;;
  if decide (values = ∅) then ret {["UNKNOWN"]} else ret values.

Definition inspect_who_arn (arn_input : string) (same : option Account) (item : Item)
  : M (gset string) :=
  if decide (arn_input = "*") then ret {["UNKNOWN"]}
  else
    let arn := ARN arn_input in
    (if error arn then record_arn_parse_issue item arn_input else ret tt) ;;;
    if decide (tech arn = Some "s3") then inspect_who_s3 (arn_name arn) same
    else
      t <- inspect_who_account (account_number arn) same ;;
      ret {[t]}.

(** [Account.query.filter(Account.name == item.account).first()] *)
Definition home_account (item : Item) : option Account :=
  List.find (fun a => String.eqb (account_name a) (account item)) (db_accounts db).

Definition inspect_who (who : Who) (item : Item) : M PyVal :=
  let same := home_account item in
  if decide (category who ∈ ["arn"; "principal"]) then
    s <- inspect_who_arn (value who) same item ;; ret (PySet s)
  else if decide (category who = "account") then
    t <- inspect_who_account (Some (value who)) same ;; ret (PySet {[t]})
  else if decide (category who = "userid") then
    s <- inspect_who_userid (value who) same ;; ret (PySet s)
  else if decide (category who = "cidr") then
    s <- inspect_who_cidr (value who) same ;; ret (PySet s)
  else if decide (category who = "vpc") then
    s <- inspect_who_vpc (value who) same ;; ret (PySet s)
  else if decide (category who = "vpce") then
    s <- inspect_who_vpce (value who) same ;; ret (PySet s)
  else ret (PyStr "ERROR").

(** *** The checks *)

Definition friendly_who (item : Item) (who : Who) : M unit :=
  r <- inspect_who who item ;;
  if py_in "FRIENDLY" r then record_friendly_cross_account_access_issue item who
  else ret tt.

Definition check_friendly_cross_account (item : Item) : M unit :=
  let policies := load_policies item in
  for_each policies (fun policy =>
    for_each (whos_allowed policy) (friendly_who item)).

Definition thirdparty_who (item : Item) (who : Who) : M unit :=
  r <- inspect_who who item ;;
  if py_in "THIRDPARTY" r then record_thirdparty_cross_account_access_issue item who
  else ret tt.

Definition check_thirdparty_cross_account (item : Item) : M unit :=
  let policies := load_policies item in
  for_each policies (fun policy =>
    for_each (whos_allowed policy) (thirdparty_who item)).

Definition unknown_who (item : Item) (who : Who) : M unit :=
  if bool_decide (value who = "*") && bool_decide (category who = "principal") then ret tt
  else if bool_decide (category who = "principal") && service (ARN (value who)) then ret tt
  else
    r <- inspect_who who item ;;
    if py_in "UNKNOWN" r then record_unknown_cross_account_access_issue item who
    else ret tt.

Definition check_unknown_cross_account (item : Item) : M unit :=
  let policies := load_policies item in
  for_each policies (fun policy =>
    if is_internet_accessible policy then ret tt
    else for_each (whos_allowed policy) (unknown_who item)).

Definition root_who (item : Item) (statement : Statement) (who : Who) : M unit :=
  if decide (category who ∈ ["arn"; "principal"]) then
    if decide (value who = "*") then ret tt
    else
      let arn := ARN (value who) in
      if root arn then
        r <- inspect_who who item ;;
        i <- py_intersection r {["FRIENDLY"; "THIRDPARTY"; "UNKNOWN"]} ;;
        if decide (i = ∅) then ret tt
        else _check_cross_account_root item arn (actions statement)
      else ret tt
  else ret tt.

Definition check_root_cross_account (item : Item) : M unit :=
  let policies := load_policies item in
  for_each policies (fun policy =>
    for_each (statements policy) (fun statement =>
      if decide (effect statement = "Allow") then
        for_each (statement_whos_allowed statement) (root_who item statement)
      else ret tt)).

(** *** The SNS auditor *)

Definition check_snstopicpolicy_empty (snsitem : Item) : M unit :=
  let tag := "SNS Topic Policy is empty" in
  let severity := 1 in
  if eq_empty_dict (default (JDict []) (config snsitem !! "policy"))
  then emit (add_issue severity tag snsitem None)
  else ret tt.

(** *** What the checks are expected to report *)

(** Every network string a [cidr] reference makes the resolver read is
    one [ipaddr.IPNetwork] accepts. *)
Definition networks_readable (s : Store) (who : Who) : Prop :=
  category who = "cidr" →
  is_Some (IPNetwork (value who)) ∧
  map_Forall (λ k _, is_Some (IPNetwork k)) (table s "cidr").

#[global] Instance networks_readable_dec s who : Decision (networks_readable s who).
Proof. unfold networks_readable. apply _. Defined.

(** [tier in self.inspect_who(who, item)], evaluated at the store [s]. *)
Definition resolves_to (tier : string) (who : Who) (item : Item) (s : Store) : bool :=
  match result (inspect_who who item s) with
  | inr r => py_in tier r
  | inl _ => false
  end.

Definition is_unknown_issue (c : Call) : bool :=
  match c with
  | add_issue _ tag _ _ => String.eqb tag "Unknown Cross Account Access"
  | root_access_finding _ _ _ => false
  end.

(** The gates of the unknown cross-account check on one reference. *)
Definition unknown_gate (item : Item) (s : Store) (who : Who) : bool :=
  negb (bool_decide (value who = "*" ∧ category who = "principal")) &&
  negb (bool_decide (category who = "principal" ∧ service (ARN (value who)) = true)) &&
  resolves_to "UNKNOWN" who item s.

Definition unknown_findings (item : Item) (s : Store) : list Call :=
  flat_map (fun policy =>
    if is_internet_accessible policy then []
    else
      flat_map (fun who =>
        if unknown_gate item s who
        then [add_issue 10 "Unknown Cross Account Access" item
                (Some ("Access provided to " ++ category who ++ ":" ++ value who ++ "."))]
        else []) (whos_allowed policy))
    (load_policies item).

Definition is_root_finding (c : Call) : bool :=
  match c with
  | root_access_finding _ _ _ => true
  | add_issue _ _ _ _ => false
  end.

(** The gates of the root cross-account check on one reference of an
    Allow statement. *)
Definition root_gate (item : Item) (s : Store) (who : Who) : bool :=
  bool_decide (category who = "arn" ∨ category who = "principal") &&
  negb (bool_decide (value who = "*")) &&
  root (ARN (value who)) &&
  match result (inspect_who who item s) with
  | inr (PySet tiers) =>
      bool_decide (tiers ∩ {["FRIENDLY"; "THIRDPARTY"; "UNKNOWN"]} ≠ ∅)
  | _ => false
  end.

Definition root_findings (item : Item) (s : Store) : list Call :=
  flat_map (fun policy =>
    flat_map (fun statement =>
      if bool_decide (effect statement = "Allow") then
        flat_map (fun who =>
          if root_gate item s who
          then [root_access_finding item (ARN (value who)) (actions statement)]
          else []) (statement_whos_allowed statement)
      else []) (statements policy))
    (load_policies item).

(** The loop [for who in ...: body who] gets past [who]: its outcome is
    that of the remaining references run from the store [who] left. *)
Definition goes_on (body : Who -> M unit) (who : Who) (s : Store) : Prop :=
  ∀ rest,
    for_each (who :: rest) body s =
      mkOutcome (result (for_each rest body (store (body who s))))
                (store (for_each rest body (store (body who s))))
                (calls (body who s) ++ calls (for_each rest body (store (body who s)))).

(** A computation that keeps [I] true of the store, also when it raises. *)
Definition preserves {A} (I : Store -> Prop) (m : M A) : Prop :=
  ∀ s, I s → I (store (m s)).

(** The table name [t] is in the store. *)
Definition has_name (t : string) (s : Store) : Prop := is_Some (s !! t).

(** Outside the registry, every key of every table has an owner. *)
Definition owned (s : Store) : Prop :=
  ∀ t, t ≠ "ACCOUNTS" → map_Forall (λ _ accounts, accounts ≠ ∅) (table s t).

(** The registry has the set named [k]. *)
Definition has_set (k : string) (s : Store) : Prop :=
  is_Some (table s "ACCOUNTS" !! k).

(** *** The internet-accessible check *)

Definition record_internet_accessible_issue (item : Item) (granted : gset string) : M unit :=
  let tag := "Internet Accessible" in
  let notes := "An " ++ i_am_singular ++ " " in
  let notes := notes ++ "with { 'Principal': { 'AWS': '*' } } must also have a strong condition block or it is Internet Accessible. " in
  let notes := notes ++ "In this case, anyone is allowed to perform this action(s): " in
  let notes := notes ++ json_dumps (elements granted) in
  emit (add_issue 10 tag item (Some notes)).

Definition check_internet_accessible (item : Item) : M unit :=
  let policies := load_policies item in
  for_each policies (fun policy =>
    if is_internet_accessible policy
    then record_internet_accessible_issue item (internet_accessible_actions policy)
    else ret tt).

(** *** More vocabulary *)

Definition is_friendly_issue (c : Call) : bool :=
  match c with
  | add_issue _ tag _ _ => String.eqb tag "Friendly Cross Account Access"
  | root_access_finding _ _ _ => false
  end.

Definition is_thirdparty_issue (c : Call) : bool :=
  match c with
  | add_issue _ tag _ _ => String.eqb tag "Friendly Third Party Cross Account Access"
  | root_access_finding _ _ _ => false
  end.

(** One finding per reference of the item that resolves to [tier]. *)
Definition tier_findings (tier tag : string) (item : Item) (s : Store) : list Call :=
  flat_map (fun policy =>
    flat_map (fun who =>
      if resolves_to tier who item s
      then [add_issue 0 tag item
              (Some ("Access provided to " ++ category who ++ ":" ++ value who ++ "."))]
      else []) (whos_allowed policy))
    (load_policies item).

(** No [':'] in the string. *)
Fixpoint colon_free (s : string) : bool :=
  match s with
  | EmptyString => true
  | String c s' => negb (Ascii.eqb c ":"%char) && colon_free s'
  end.

Definition four_tiers : gset string :=
  {["SAME"; "FRIENDLY"; "THIRDPARTY"; "UNKNOWN"]}.

(** The owners recorded under [k] in table [t] include [a]. *)
Definition owner_of (s : Store) (t k a : string) : Prop :=
  ∃ accounts, table s t !! k = Some accounts ∧ a ∈ accounts.

(** Every address of every stored NAT gateway has both fields. *)
Definition addresses_complete : Prop :=
  ∀ gateway address,
    gateway ∈ _load_related_items "natgateway" →
    address ∈ default [] (nat_gateway_addresses gateway) →
    is_Some (address !! "public_ip") ∧ is_Some (address !! "private_ip").

(** *** The monad *)

Lemma bind_inr {A B} (m : M A) (f : A -> M B) s a s1 c1 :
  m s = mkOutcome (inr a) s1 c1 →
  bind m f s = mkOutcome (result (f a s1)) (store (f a s1)) (c1 ++ calls (f a s1)).
Proof. intros H. unfold bind. rewrite H. reflexivity. Qed.

Lemma outcome_eta {A} (o : Outcome A) : o = mkOutcome (result o) (store o) (calls o).
Proof. destruct o; reflexivity. Qed.

Lemma bind_pure {A B} (m : M A) (f : A -> M B) s a :
  m s = mkOutcome (inr a) s [] → bind m f s = f a s.
Proof.
  intros H. rewrite (bind_inr _ _ _ _ _ _ H). cbn. symmetry. apply outcome_eta.
Qed.

Lemma bind_ret {A B} (a : A) (f : A -> M B) s : bind (ret a) f s = f a s.
Proof. by apply bind_pure. Qed.

Lemma bind_getitem {V B} (d : gmap string V) k v (f : V -> M B) s :
  d !! k = Some v → bind (getitem d k) f s = f v s.
Proof. intros H. apply bind_pure. unfold getitem. by rewrite H. Qed.

Lemma bind_get_table {B} t tbl (f : gmap string (gset string) -> M B) s :
  s !! t = Some tbl → bind (get_table t) f s = f tbl s.
Proof. intros H. apply bind_pure. unfold get_table. by rewrite H. Qed.

(** *** [add] *)

Lemma add_falsy to key value : key_falsy key = true → add to key value = to.
Proof. intros H. unfold add. rewrite H. reflexivity. Qed.

Lemma add_truthy_lookup to k value :
  k ≠ "" → add to (Some k) value !! k = Some (default ∅ (to !! k) ∪ {[value]}).
Proof.
  intros Hk. unfold add, key_falsy.
  apply String.eqb_neq in Hk. rewrite Hk.
  destruct (to !! k) as [accounts|] eqn:E; rewrite lookup_insert_eq; simpl.
  - reflexivity.
  - by rewrite (left_id_L ∅ (∪)).
Qed.

Lemma add_other to key value k' :
  key ≠ Some k' → add to key value !! k' = to !! k'.
Proof.
  intros Hne. unfold add.
  destruct (key_falsy key); [reflexivity|].
  destruct key as [k|]; [|reflexivity].
  assert (k ≠ k') by congruence.
  destruct (to !! k); by rewrite lookup_insert_ne.
Qed.

Lemma add_keeps to key value k' accounts a :
  to !! k' = Some accounts → a ∈ accounts →
  ∃ accounts', add to key value !! k' = Some accounts' ∧ a ∈ accounts'.
Proof.
  intros Hk' Ha.
  destruct (decide (key = Some k')) as [->|Hne].
  - destruct (decide (k' = "")) as [->|Hk].
    + rewrite add_falsy by reflexivity. eauto.
    + rewrite add_truthy_lookup by assumption. rewrite Hk'. simpl.
      eexists. split; [reflexivity|]. apply elem_of_union. by left.
  - rewrite add_other by assumption. eauto.
Qed.

(** C5. [add(to, key, value)] leaves the table as it is when the key is
    absent ([None]) or empty; with a non-empty key it puts [value] into the
    set under that key, which is created when missing, and touches no
    other key; in every case each association of the table is still there
    afterwards. *)
Theorem add_additive (to : gmap string (gset string)) (key : option string) (value : string) :
  (key = None ∨ key = Some "" → add to key value = to) ∧
  (∀ k, key = Some k → k ≠ "" →
        add to key value !! k = Some (default ∅ (to !! k) ∪ {[value]}) ∧
        ∀ k', k' ≠ k → add to key value !! k' = to !! k') ∧
  (∀ k' accounts a, to !! k' = Some accounts → a ∈ accounts →
        ∃ accounts', add to key value !! k' = Some accounts' ∧ a ∈ accounts').
Proof.
  split; [|split].
  - intros [->| ->]; apply add_falsy; reflexivity.
  - intros k -> Hk. split.
    + by apply add_truthy_lookup.
    + intros k' Hne. apply add_other. congruence.
  - intros k' accounts a. apply add_keeps.
Qed.

(** *** [inspect_who_account] *)

Lemma inspect_who_account_run s F T home a :
  registry s F T →
  inspect_who_account a (Some home) s = mkOutcome (inr (resolveAccount F T home a)) s [].
Proof.
  intros (acc & Hs & HF & HT).
  unfold inspect_who_account, resolveAccount.
  destruct (decide (a = Some "000000000000")); [reflexivity|].
  destruct (decide (a = Some (identifier home))); [reflexivity|].
  unfold bind, get_table, getitem. rewrite Hs. cbn. rewrite HF. cbn.
  destruct (in_set a F); [reflexivity|].
  rewrite Hs. cbn. rewrite HT. cbn.
  destruct (in_set a T); reflexivity.
Qed.

(** C1. [inspect_who_account] answers in a fixed order: SAME for the
    sentinel ["000000000000"] whatever the store holds; otherwise SAME for
    the home account's identifier, also when that identifier is in the
    FRIENDLY or THIRDPARTY set; otherwise FRIENDLY for a member of the
    FRIENDLY set; otherwise THIRDPARTY for a member of the THIRDPARTY set;
    UNKNOWN for every other identifier.  The store is left as it was and
    nothing is reported. *)
Theorem inspect_who_account_precedence (s : Store) (home : Account) (a : string) :
  (∀ same, a = "000000000000" →
     inspect_who_account (Some a) same s = mkOutcome (inr "SAME") s []) ∧
  (a = identifier home →
     inspect_who_account (Some a) (Some home) s = mkOutcome (inr "SAME") s []) ∧
  (∀ F T, registry s F T → a ≠ "000000000000" → a ≠ identifier home →
     inspect_who_account (Some a) (Some home) s =
       mkOutcome (inr (if decide (a ∈ F) then "FRIENDLY"
                       else if decide (a ∈ T) then "THIRDPARTY"
                       else "UNKNOWN")) s []).
Proof.
  split; [|split].
  - intros same ->. reflexivity.
  - intros ->. unfold inspect_who_account.
    destruct (decide _); [reflexivity|].
    destruct (decide _); [reflexivity|congruence].
  - intros F T Hreg H0 Hh.
    rewrite (inspect_who_account_run _ F T) by assumption.
    unfold resolveAccount, in_set.
    destruct (decide (Some a = _)); [congruence|].
    destruct (decide (Some a = _)); [congruence|].
    rewrite !bool_decide_decide.
    destruct (decide (a ∈ F)); [reflexivity|].
    destruct (decide (a ∈ T)); reflexivity.
Qed.


(** *** Stores that differ by empty tables *)

Lemma grows_refl s : grows s s.
Proof. intros t. by left. Qed.

Lemma grows_trans s1 s2 s3 : grows s1 s2 → grows s2 s3 → grows s1 s3.
Proof.
  intros H12 H23 t.
  destruct (H12 t) as [E12|(N1 & E2 & Ht)], (H23 t) as [E23|(N2 & E3 & Ht')].
  - left. congruence.
  - right. split; [congruence|auto].
  - right. split; [done|]. split; [congruence|done].
  - congruence.
Qed.

Lemma grows_same_view s s' : grows s s' → same_view s s'.
Proof.
  intros H t. unfold table.
  destruct (H t) as [E|(N & E & _)]; rewrite E; [reflexivity|].
  by rewrite N.
Qed.

Lemma grows_registry s s' F T : grows s s' → registry s F T → registry s' F T.
Proof.
  intros H (acc & Hs & HF & HT). exists acc.
  destruct (H "ACCOUNTS") as [E|(N & _)]; [|congruence].
  rewrite E. auto.
Qed.

Lemma same_view_sym s s' : same_view s s' → same_view s' s.
Proof. intros H t. by rewrite H. Qed.

Lemma same_view_trans s1 s2 s3 : same_view s1 s2 → same_view s2 s3 → same_view s1 s3.
Proof. intros H1 H2 t. by rewrite H1. Qed.

Lemma get_table_result s t : result (get_table t s) = inr (table s t).
Proof. unfold get_table, table. by destruct (s !! t). Qed.

Lemma get_table_calls s t : calls (get_table t s) = [].
Proof. unfold get_table. by destruct (s !! t). Qed.

Lemma get_table_store_lookup s t :
  store (get_table t s) !! t = Some (table s t).
Proof.
  unfold get_table, table. destruct (s !! t) eqn:E; cbn; [done|].
  by rewrite lookup_insert_eq.
Qed.

Lemma get_table_grows s t : t ∈ table_names → grows s (store (get_table t s)).
Proof.
  intros Ht t'. unfold get_table. destruct (s !! t) eqn:E; cbn; [by left|].
  destruct (decide (t = t')) as [<-|Hne].
  - right. by rewrite lookup_insert_eq.
  - left. by rewrite lookup_insert_ne.
Qed.

Lemma get_table_view s t : same_view s (store (get_table t s)).
Proof.
  intros t'. unfold get_table, table. destruct (s !! t) eqn:E; cbn; [done|].
  destruct (decide (t = t')) as [<-|Hne].
  - by rewrite lookup_insert_eq, E.
  - by rewrite lookup_insert_ne.
Qed.

(** *** Computations that only look the store up *)

Lemma lookup_only_ret {A} P (a : A) : lookup_only P (ret a).
Proof.
  intros s. cbn. split; [apply grows_refl|]. split; [constructor|]. auto.
Qed.

Lemma lookup_only_raise {A} P e : lookup_only P (@raise A e).
Proof.
  intros s. cbn. split; [apply grows_refl|]. split; [constructor|]. auto.
Qed.

Lemma lookup_only_emit (P : Call -> Prop) c : P c → lookup_only P (emit c).
Proof.
  intros Hc s. cbn. split; [apply grows_refl|]. split; [by repeat constructor|]. auto.
Qed.

Lemma lookup_only_get_table P t : t ∈ table_names → lookup_only P (get_table t).
Proof.
  intros Ht s. split; [by apply get_table_grows|].
  split; [rewrite get_table_calls; constructor|].
  intros s' Hv. rewrite !get_table_result, !get_table_calls, (Hv t).
  split; [done|]. split; [done|].
  eapply same_view_trans; [apply same_view_sym, get_table_view|].
  eapply same_view_trans; [exact Hv|apply get_table_view].
Qed.

Lemma lookup_only_getitem {V} P (d : gmap string V) k : lookup_only P (getitem d k).
Proof.
  unfold getitem. destruct (d !! k); [apply lookup_only_ret|apply lookup_only_raise].
Qed.

Lemma lookup_only_bind {A B} P (m : M A) (f : A -> M B) :
  lookup_only P m → (∀ a, lookup_only P (f a)) → lookup_only P (bind m f).
Proof.
  intros Hm Hf s. destruct (Hm s) as (Hg & Hc & Hv). unfold bind.
  destruct (result (m s)) as [e|a] eqn:E; cbn.
  - split; [done|]. split; [done|].
    intros s' Hs'. destruct (Hv s' Hs') as (Hr & Hc' & Hst).
    rewrite Hr. cbn. auto.
  - destruct (Hf a (store (m s))) as (Hg2 & Hc2 & Hv2).
    split; [by eapply grows_trans|]. split; [by apply Forall_app|].
    intros s' Hs'. destruct (Hv s' Hs') as (Hr & Hc' & Hst).
    rewrite Hr. cbn. destruct (Hv2 _ Hst) as (? & ? & ?).
    rewrite Hc'. split; [done|]. split; [congruence|done].
Qed.

Lemma lookup_only_for_fold {A B} P (l : list A) (body : B -> A -> M B) acc :
  (∀ b x, lookup_only P (body b x)) → lookup_only P (for_fold l body acc).
Proof.
  intros Hb. revert acc. induction l as [|x l IH]; intros acc; cbn.
  - apply lookup_only_ret.
  - apply lookup_only_bind; auto.
Qed.

Lemma names_ACCOUNTS : "ACCOUNTS" ∈ table_names.
Proof. unfold table_names. sets. Qed.

Lemma lookup_only_inspect_who_account P a same :
  lookup_only P (inspect_who_account a same).
Proof.
  unfold inspect_who_account.
  destruct (decide _); [apply lookup_only_ret|].
  destruct same as [home|]; [|apply lookup_only_raise].
  destruct (decide _); [apply lookup_only_ret|].
  apply lookup_only_bind; [apply lookup_only_get_table, names_ACCOUNTS|intros acc].
  apply lookup_only_bind; [apply lookup_only_getitem|intros F].
  destruct (in_set a F); [apply lookup_only_ret|].
  apply lookup_only_bind; [apply lookup_only_get_table, names_ACCOUNTS|intros acc'].
  apply lookup_only_bind; [apply lookup_only_getitem|intros T].
  destruct (in_set a T); apply lookup_only_ret.
Qed.

Lemma lookup_only_add_account_tiers P accounts same values :
  lookup_only P (add_account_tiers accounts same values).
Proof.
  unfold add_account_tiers. apply lookup_only_for_fold. intros b x.
  apply lookup_only_bind; [apply lookup_only_inspect_who_account|intros t].
  apply lookup_only_ret.
Qed.

Lemma lookup_only_inspect_who_generic P key item same :
  key ∈ table_names → lookup_only P (inspect_who_generic key item same).
Proof.
  intros Hk. unfold inspect_who_generic.
  apply lookup_only_bind; [by apply lookup_only_get_table|intros tbl].
  destruct item as [k|]; [|apply lookup_only_ret].
  destruct (tbl !! k); [|apply lookup_only_ret].
  apply lookup_only_bind; [by apply lookup_only_get_table|intros tbl'].
  apply lookup_only_bind; [apply lookup_only_getitem|intros accounts].
  apply lookup_only_add_account_tiers.
Qed.

Lemma lookup_only_inspect_who_cidr P cidr same :
  lookup_only P (inspect_who_cidr cidr same).
Proof.
  assert (Hn : "cidr" ∈ table_names) by (unfold table_names; sets).
  assert (Hp : ∀ x, lookup_only P (parse_network x)).
  { intros x. unfold parse_network.
    destruct (IPNetwork x); [apply lookup_only_ret|apply lookup_only_raise]. }
  unfold inspect_who_cidr.
  apply lookup_only_bind; [by apply lookup_only_get_table|intros tbl].
  apply lookup_only_bind.
  - apply lookup_only_for_fold. intros values str_cidr. unfold cidr_entry.
    apply lookup_only_bind; [apply Hp|intros q].
    apply lookup_only_bind; [apply Hp|intros k].
    destruct (net_in q k); [|apply lookup_only_ret].
    apply lookup_only_bind; [by apply lookup_only_get_table|intros tbl'].
    apply lookup_only_bind; [apply lookup_only_getitem|intros accounts].
    apply lookup_only_add_account_tiers.
  - intros values. destruct (decide _); apply lookup_only_ret.
Qed.

Lemma lookup_only_inspect_who_arn arn_input same item :
  lookup_only is_parse_issue (inspect_who_arn arn_input same item).
Proof.
  unfold inspect_who_arn.
  destruct (decide _); [apply lookup_only_ret|].
  apply lookup_only_bind.
  - destruct (error _); [|apply lookup_only_ret].
    apply lookup_only_emit. unfold is_parse_issue. eauto.
  - intros _. destruct (decide _).
    + apply lookup_only_inspect_who_generic. unfold table_names. sets.
    + apply lookup_only_bind; [apply lookup_only_inspect_who_account|intros t].
      apply lookup_only_ret.
Qed.

Lemma lookup_only_inspect_who who item :
  lookup_only is_parse_issue (inspect_who who item).
Proof.
  unfold inspect_who, inspect_who_userid, inspect_who_vpc, inspect_who_vpce.
  repeat (destruct (decide _);
    [apply lookup_only_bind;
       [first [apply lookup_only_inspect_who_arn
              |apply lookup_only_inspect_who_account
              |apply lookup_only_inspect_who_cidr
              |apply lookup_only_inspect_who_generic; unfold table_names; sets]
       |intros ?; apply lookup_only_ret]|]).
  apply lookup_only_ret.
Qed.


(** *** Resolution with the registry in place *)

Lemma add_account_tiers_run s F T home accounts values :
  registry s F T →
  add_account_tiers accounts (Some home) values s =
    mkOutcome (inr (values ∪ set_map (λ a, resolveAccount F T home (Some a)) accounts)) s [].
Proof.
  intros Hreg. unfold add_account_tiers, set_map.
  generalize (elements accounts) as l. intros l. revert values.
  induction l as [|a l IH]; intros values; cbn.
  - unfold ret. f_equal. f_equal. sets.
  - assert (Hstep :
      (t <- inspect_who_account (Some a) (Some home) ;; ret (values ∪ {[t]})) s
      = mkOutcome (inr (values ∪ {[resolveAccount F T home (Some a)]})) s []).
    { by rewrite (bind_inr _ _ _ _ _ _ (inspect_who_account_run _ F T home _ Hreg)). }
    rewrite (bind_inr _ _ _ _ _ _ Hstep), IH. cbn.
    f_equal. f_equal. sets.
Qed.

Lemma cidr_entry_run s tbl F T home cidr query values k accounts stored :
  registry s F T → s !! "cidr" = Some tbl →
  IPNetwork cidr = Some query → tbl !! k = Some accounts → IPNetwork k = Some stored →
  cidr_entry cidr (Some home) values k s =
    mkOutcome
      (inr (if net_in query stored
            then values ∪ set_map (λ a, resolveAccount F T home (Some a)) accounts
            else values)) s [].
Proof.
  intros Hreg Hs Hq Hk Hn.
  unfold cidr_entry, parse_network. rewrite Hq, Hn.
  rewrite !bind_ret.
  destruct (net_in query stored); [|reflexivity].
  rewrite (bind_get_table _ _ _ _ Hs), (bind_getitem _ _ _ _ _ Hk).
  by apply add_account_tiers_run.
Qed.

Lemma cidr_loop s tbl F T home cidr query l :
  registry s F T → s !! "cidr" = Some tbl → IPNetwork cidr = Some query →
  (∀ k, k ∈ l → is_Some (tbl !! k) ∧ is_Some (IPNetwork k)) →
  ∀ values, ∃ V,
    for_fold l (cidr_entry cidr (Some home)) values s = mkOutcome (inr V) s [] ∧
    ∀ t, t ∈ V ↔
         t ∈ values ∨
         ∃ k accounts stored a,
           k ∈ l ∧ tbl !! k = Some accounts ∧ IPNetwork k = Some stored ∧
           net_in query stored = true ∧ a ∈ accounts ∧
           t = resolveAccount F T home (Some a).
Proof.
  intros Hreg Hs Hq. induction l as [|k l IH]; intros Hl values.
  - exists values. split; [reflexivity|]. intros t. split; [auto|].
    intros [?|(k & ? & ? & ? & Hk & _)]; [done|]. by apply elem_of_nil in Hk.
  - destruct (Hl k) as ([accounts Hk] & [stored Hn]); [left|].
    destruct (IH (λ k' Hk', Hl k' (list_elem_of_further _ _ _ Hk'))
                 (if net_in query stored
                  then values ∪ set_map (λ a, resolveAccount F T home (Some a)) accounts
                  else values)) as (V & HV & Hmem).
    exists V. split.
    + cbn [for_fold].
      rewrite (bind_inr _ _ _ _ _ _
                 (cidr_entry_run _ _ F T home _ _ values _ _ _ Hreg Hs Hq Hk Hn)).
      rewrite HV. reflexivity.
    + intros t. rewrite Hmem. split.
      * intros [Ht|(k' & A' & st' & a & Hk' & ?)].
        -- destruct (net_in query stored) eqn:Hin.
           ++ apply elem_of_union in Ht as [Ht|Ht]; [by left|].
              apply elem_of_map in Ht as (a & -> & Ha).
              right. exists k, accounts, stored, a. repeat split; try done. left.
           ++ by left.
        -- right. exists k', A', st', a. split; [by right|done].
      * intros [Ht|(k' & A' & st' & a & Hk' & HA' & Hst' & Hin & Ha & ->)].
        -- left. destruct (net_in query stored); [|done].
           apply elem_of_union. by left.
        -- apply elem_of_cons in Hk' as [->|Hk'].
           ++ left. rewrite Hk in HA'. rewrite Hn in Hst'.
              injection HA' as <-. injection Hst' as <-. rewrite Hin.
              apply elem_of_union. right. apply elem_of_map. eauto.
           ++ right. exists k', A', st', a. done.
Qed.

Lemma inspect_who_cidr_run (s : Store) (F T : gset string) (home : Account)
    (cidr : string) (query : Net) :
  registry s F T →
  IPNetwork cidr = Some query →
  (∀ k, is_Some (table s "cidr" !! k) → is_Some (IPNetwork k)) →
  ∃ V,
    inspect_who_cidr cidr (Some home) s =
      mkOutcome (inr (if decide (V = ∅) then {["UNKNOWN"]} else V))
                (store (get_table "cidr" s)) [] ∧
    ∀ t, t ∈ V ↔
         ∃ k accounts stored a,
           table s "cidr" !! k = Some accounts ∧ IPNetwork k = Some stored ∧
           net_in query stored = true ∧ a ∈ accounts ∧
           result (inspect_who_account (Some a) (Some home) s) = inr t.
Proof.
  intros Hreg Hq Hwf.
  set (s1 := store (get_table "cidr" s)).
  assert (Hs1 : s1 !! "cidr" = Some (table s "cidr")) by apply get_table_store_lookup.
  assert (Hreg1 : registry s1 F T).
  { eapply grows_registry; [|exact Hreg].
    apply get_table_grows. unfold table_names. sets. }
  destruct (cidr_loop s1 (table s "cidr") F T home cidr query
              (map_to_list (table s "cidr")).*1 Hreg1 Hs1 Hq) with (values := (∅ : gset string))
    as (V & HV & Hmem).
  { intros k Hk. apply list_elem_of_fmap in Hk as ([k' A] & -> & Hk).
    apply elem_of_map_to_list in Hk. cbn. split; [eauto|]. apply Hwf. eauto. }
  exists V. split.
  - unfold inspect_who_cidr.
    rewrite (bind_inr _ _ s (table s "cidr") s1 []).
    2:{ rewrite (outcome_eta (get_table "cidr" s)).
        by rewrite get_table_result, get_table_calls. }
    rewrite (bind_pure _ _ _ _ HV). cbn.
    destruct (decide (V = ∅)); reflexivity.
  - intros t. rewrite Hmem. split.
    + intros [Ht|(k & A & st & a & _ & ? & ? & ? & ? & ->)]; [sets|].
      exists k, A, st, a. rewrite (inspect_who_account_run _ F T) by assumption. done.
    + intros (k & A & st & a & HA & ? & ? & ? & Hr). right.
      rewrite (inspect_who_account_run _ F T) in Hr by assumption. cbn in Hr.
      injection Hr as <-.
      exists k, A, st, a. repeat split; try done.
      apply list_elem_of_fmap. exists (k, A). split; [done|].
      by apply elem_of_map_to_list.
Qed.

(** C2. With the registry in place and every stored CIDR key readable
    as a network with at least one owner, [inspect_who_cidr] returns, for
    a query that reads as a network, the union over the stored entries
    whose network contains the query of the tiers [inspect_who_account]
    gives their owners; when no stored network contains the query it
    returns the singleton UNKNOWN. *)
Theorem inspect_who_cidr_union (s : Store) (F T : gset string) (home : Account)
    (cidr : string) (query : Net) :
  registry s F T →
  IPNetwork cidr = Some query →
  (∀ k accounts, table s "cidr" !! k = Some accounts →
                 is_Some (IPNetwork k) ∧ accounts ≠ ∅) →
  ∃ values,
    result (inspect_who_cidr cidr (Some home) s) = inr values ∧
    calls (inspect_who_cidr cidr (Some home) s) = [] ∧
    ((∀ k accounts stored,
         table s "cidr" !! k = Some accounts → IPNetwork k = Some stored →
         net_in query stored = false) →
     values = {["UNKNOWN"]}) ∧
    ((∃ k accounts stored,
         table s "cidr" !! k = Some accounts ∧ IPNetwork k = Some stored ∧
         net_in query stored = true) →
     ∀ t, t ∈ values ↔
          ∃ k accounts stored a,
            table s "cidr" !! k = Some accounts ∧ IPNetwork k = Some stored ∧
            net_in query stored = true ∧ a ∈ accounts ∧
            result (inspect_who_account (Some a) (Some home) s) = inr t).
Proof.
  intros Hreg Hq Hwf.
  destruct (inspect_who_cidr_run s F T home cidr query Hreg Hq) as (V & Hrun & Hchar).
  { intros k [A HA]. by apply (Hwf k A). }
  eexists. rewrite Hrun. cbn. split; [reflexivity|]. split; [reflexivity|]. split.
  - intros Hnone. rewrite decide_True; [done|].
    apply set_eq. intros t. rewrite Hchar. split; [|sets].
    intros (k & A & st & a & HA & Hst & Hin & _). rewrite (Hnone k A st HA Hst) in Hin. done.
  - intros (k & A & st & HA & Hst & Hin).
    destruct (Hwf k A HA) as [_ Hne].
    apply set_choose_L in Hne as [a Ha].
    rewrite decide_False; [exact Hchar|].
    intros HV0.
    assert (resolveAccount F T home (Some a) ∈ V) as Hin'.
    { apply Hchar. exists k, A, st, a. repeat split; try done.
      by rewrite (inspect_who_account_run _ F T). }
    rewrite HV0 in Hin'. sets.
Qed.

Lemma get_table_registry s t F T :
  registry s F T → registry (store (get_table t s)) F T.
Proof.
  intros (acc & Hs & HF & HT). unfold get_table.
  destruct (s !! t) eqn:E; cbn; [by exists acc|].
  exists acc. rewrite lookup_insert_ne; [done|]. intros ->. congruence.
Qed.

Lemma get_table_eta s t :
  get_table t s = mkOutcome (inr (table s t)) (store (get_table t s)) [].
Proof.
  rewrite (outcome_eta (get_table t s)) at 1.
  by rewrite get_table_result, get_table_calls.
Qed.

Lemma inspect_who_generic_run s F T home key item :
  registry s F T →
  inspect_who_generic key item (Some home) s =
    mkOutcome
      (inr (match item with
            | Some k =>
                match table s key !! k with
                | Some accounts =>
                    set_map (λ a, resolveAccount F T home (Some a)) accounts
                | None => {["UNKNOWN"]}
                end
            | None => {["UNKNOWN"]}
            end))
      (store (get_table key s)) [].
Proof.
  intros Hreg. unfold inspect_who_generic.
  rewrite (bind_inr _ _ _ _ _ _ (get_table_eta s key)). cbn.
  destruct item as [k|]; [|reflexivity].
  destruct (table s key !! k) as [accounts|] eqn:Hk; [|reflexivity].
  rewrite (bind_get_table _ _ _ _ (get_table_store_lookup s key)).
  rewrite (bind_getitem _ _ _ _ _ Hk).
  rewrite (add_account_tiers_run _ F T) by by apply get_table_registry.
  cbn. f_equal. f_equal. sets.
Qed.

Lemma inspect_who_arn_run s F T home item v :
  registry s F T → v ≠ "*" →
  ∃ tiers s',
    inspect_who_arn v (Some home) item s =
      mkOutcome (inr tiers) s'
        (if error (ARN v) then [add_issue 3 "Auditor could not parse ARN" item (Some v)]
         else []) ∧
    (tech (ARN v) ≠ Some "s3" →
     tiers = {[resolveAccount F T home (account_number (ARN v))]} ∧ s' = s).
Proof.
  intros Hreg Hv. unfold inspect_who_arn.
  destruct (decide (v = "*")); [done|].
  set (first := if error (ARN v) then record_arn_parse_issue item v else ret tt).
  assert (Hfirst : first s = mkOutcome (inr tt) s
            (if error (ARN v)
             then [add_issue 3 "Auditor could not parse ARN" item (Some v)] else [])).
  { unfold first. by destruct (error (ARN v)). }
  rewrite (bind_inr _ _ _ _ _ _ Hfirst).
  destruct (decide (tech (ARN v) = Some "s3")) as [Hs3|Hs3].
  - unfold inspect_who_s3. rewrite (inspect_who_generic_run _ F T) by assumption. cbn.
    rewrite app_nil_r. eexists _, _. split; [reflexivity|]. done.
  - rewrite (bind_pure _ _ _ _ (inspect_who_account_run s F T home _ Hreg)). cbn.
    rewrite app_nil_r. eexists _, _. split; [reflexivity|]. done.
Qed.

Lemma bind_result_ret {A B} (m : M A) (g : A -> B) s a :
  result (m s) = inr a → result (bind m (fun x => ret (g x)) s) = inr (g a).
Proof. intros H. unfold bind. by rewrite H. Qed.

Lemma inspect_who_total s F T home item who :
  registry s F T → home_account item = Some home → networks_readable s who →
  ∃ r, result (inspect_who who item s) = inr r ∧
       (category who = "arn" ∨ category who = "principal" → ∃ tiers, r = PySet tiers).
Proof.
  intros Hreg Hhome Hnet. unfold inspect_who. rewrite Hhome.
  destruct (decide (category who ∈ ["arn"; "principal"])) as [Hc|Hc].
  { destruct (decide (value who = "*")) as [Hv|Hv].
    - unfold inspect_who_arn. rewrite decide_True by done. rewrite bind_ret. cbn. eauto.
    - destruct (inspect_who_arn_run s F T home item (value who) Hreg Hv)
        as (tiers & s' & Hrun & _).
      exists (PySet tiers). split; [|eauto].
      apply bind_result_ret. by rewrite Hrun. }
  assert (Hno : ¬ (category who = "arn" ∨ category who = "principal")).
  { intros [E|E]; apply Hc; rewrite E; sets. }
  destruct (decide (category who = "account")).
  { rewrite (bind_pure _ _ _ _ (inspect_who_account_run s F T home _ Hreg)).
    cbn. eexists. split; [reflexivity|done]. }
  destruct (decide (category who = "userid")).
  { eexists. split; [|done]. apply bind_result_ret.
    unfold inspect_who_userid. by rewrite (inspect_who_generic_run _ F T). }
  destruct (decide (category who = "cidr")) as [Hcidr|].
  { destruct (Hnet Hcidr) as ([query Hq] & Hkeys).
    destruct (inspect_who_cidr_run s F T home _ query Hreg Hq) as (V & Hrun & _).
    { intros k [A HA]. exact (Hkeys k A HA). }
    eexists. split; [|done]. apply bind_result_ret. by rewrite Hrun. }
  destruct (decide (category who = "vpc")).
  { eexists. split; [|done]. apply bind_result_ret.
    unfold inspect_who_vpc. by rewrite (inspect_who_generic_run _ F T). }
  destruct (decide (category who = "vpce")).
  { eexists. split; [|done]. apply bind_result_ret.
    unfold inspect_who_vpce. by rewrite (inspect_who_generic_run _ F T). }
  cbn. eexists. split; [reflexivity|done].
Qed.

(** The resolver called in the middle of a check, at a store [s'] that
    has grown from the store [s] the check started with. *)
Lemma inspect_who_at s s' F T home item who :
  grows s s' → registry s F T → home_account item = Some home →
  networks_readable s who →
  ∃ r,
    inspect_who who item s' =
      mkOutcome (inr r) (store (inspect_who who item s')) (calls (inspect_who who item s')) ∧
    result (inspect_who who item s) = inr r ∧
    grows s (store (inspect_who who item s')) ∧
    Forall is_parse_issue (calls (inspect_who who item s')) ∧
    (category who = "arn" ∨ category who = "principal" → ∃ tiers, r = PySet tiers).
Proof.
  intros Hg Hreg Hhome Hnet.
  destruct (inspect_who_total s F T home item who Hreg Hhome Hnet) as (r & Hr & Hset).
  destruct (lookup_only_inspect_who who item s) as (_ & _ & Hview).
  destruct (Hview s' (grows_same_view _ _ Hg)) as (Hr' & _ & _).
  destruct (lookup_only_inspect_who who item s') as (Hg' & Hc' & _).
  exists r. split; [|split; [done|split; [by eapply grows_trans|done]]].
  rewrite (outcome_eta (inspect_who who item s')) at 1. by rewrite Hr', Hr.
Qed.

(** *** Loops *)

Lemma for_each_spec {A} (I : Store -> Prop) (p : Call -> bool) (g : A -> list Call)
    (l : list A) (body : A -> M unit) :
  (∀ x s, x ∈ l → I s →
          result (body x s) = inr tt ∧ I (store (body x s)) ∧
          List.filter p (calls (body x s)) = g x) →
  ∀ s, I s →
       result (for_each l body s) = inr tt ∧ I (store (for_each l body s)) ∧
       List.filter p (calls (for_each l body s)) = flat_map g l.
Proof.
  induction l as [|x l IH]; intros Hbody s Hs; cbn.
  - done.
  - destruct (Hbody x s) as (Hr & HI & Hc); [left|done|].
    destruct (IH (λ y s' Hy, Hbody y s' (list_elem_of_further _ _ _ Hy))
                 (store (body x s)) HI) as (Hr' & HI' & Hc').
    unfold bind. rewrite Hr. cbn.
    rewrite List.filter_app, Hc, Hc'. done.
Qed.

Lemma for_each_grows {A} (p : Call -> bool) (g : A -> list Call)
    (l : list A) (body : A -> M unit) s :
  (∀ x s', x ∈ l → grows s s' →
           result (body x s') = inr tt ∧ grows s (store (body x s')) ∧
           List.filter p (calls (body x s')) = g x) →
  result (for_each l body s) = inr tt ∧
  List.filter p (calls (for_each l body s)) = flat_map g l.
Proof.
  intros Hbody.
  destruct (for_each_spec (grows s) p g l body Hbody s (grows_refl s)) as (? & _ & ?).
  done.
Qed.

Lemma filter_parse_unknown l :
  Forall is_parse_issue l → List.filter is_unknown_issue l = [].
Proof.
  induction 1 as [|c l (item & notes & ->) _ IH]; [done|]. cbn. exact IH.
Qed.

Lemma filter_parse_root l :
  Forall is_parse_issue l → List.filter is_root_finding l = [].
Proof.
  induction 1 as [|c l (item & notes & ->) _ IH]; [done|]. cbn. exact IH.
Qed.


(** *** The unknown cross-account check *)

Lemma bool_decide_is_true (b : bool) : bool_decide (b = true) = b.
Proof. by destruct b. Qed.

Lemma unknown_who_spec s s' F T home item who :
  grows s s' → registry s F T → home_account item = Some home →
  networks_readable s who →
  result (unknown_who item who s') = inr tt ∧
  grows s (store (unknown_who item who s')) ∧
  List.filter is_unknown_issue (calls (unknown_who item who s')) =
    (if unknown_gate item s who
     then [add_issue 10 "Unknown Cross Account Access" item
             (Some ("Access provided to " ++ category who ++ ":" ++ value who ++ "."))]
     else []).
Proof.
  intros Hg Hreg Hhome Hnet.
  destruct (inspect_who_at s s' F T home item who Hg Hreg Hhome Hnet)
    as (r & Heq & Hr & Hg' & Hc & _).
  unfold unknown_who, unknown_gate, resolves_to.
  rewrite !bool_decide_and, bool_decide_is_true, Hr.
  destruct (bool_decide (value who = "*")), (bool_decide (category who = "principal")),
    (service (ARN (value who))); cbn [andb negb]; try done.
  all: rewrite (bind_inr _ _ _ _ _ _ Heq); cbn [result store calls].
  all: destruct (py_in "UNKNOWN" r); cbn [result store calls ret
         record_unknown_cross_account_access_issue emit].
  all: rewrite List.filter_app, (filter_parse_unknown _ Hc); done.
Qed.

(** C3 (as amended). With the registry in place, the item's account on
    record and every network string of a [cidr] reference readable, the
    unknown cross-account check completes, and the findings it reports
    under the tag "Unknown Cross Account Access" are, in order, one
    severity-10 finding per reference of a policy that is not
    internet-accessible, such that the reference is not the principal
    ["*"], is not a [principal] whose ARN has the service field set, and
    has UNKNOWN in what [inspect_who] resolves it to; no other reference
    gives such a finding. *)
Theorem check_unknown_cross_account_findings (item : Item) (s : Store)
    (F T : gset string) (home : Account) :
  registry s F T →
  home_account item = Some home →
  (∀ policy who, policy ∈ load_policies item → is_internet_accessible policy = false →
                 who ∈ whos_allowed policy → networks_readable s who) →
  result (check_unknown_cross_account item s) = inr tt ∧
  List.filter is_unknown_issue (calls (check_unknown_cross_account item s))
    = unknown_findings item s.
Proof.
  intros Hreg Hhome Hnet.
  unfold check_unknown_cross_account, unknown_findings.
  apply for_each_grows.
  intros policy s1 Hp Hs1.
  destruct (is_internet_accessible policy) eqn:Hia; [done|].
  apply (for_each_spec (grows s)); [|done].
  intros who s2 Hw Hs2.
  apply (unknown_who_spec s s2 F T home); auto. by apply (Hnet policy).
Qed.

(** *** The root cross-account check *)

Lemma root_who_spec s s' F T home item statement who :
  grows s s' → registry s F T → home_account item = Some home →
  result (root_who item statement who s') = inr tt ∧
  grows s (store (root_who item statement who s')) ∧
  List.filter is_root_finding (calls (root_who item statement who s')) =
    (if root_gate item s who
     then [root_access_finding item (ARN (value who)) (actions statement)]
     else []).
Proof.
  intros Hg Hreg Hhome.
  unfold root_who, root_gate.
  destruct (decide (category who ∈ ["arn"; "principal"])) as [Hc|Hc].
  2:{ rewrite bool_decide_false; [done|].
      intros [E|E]; apply Hc; rewrite E; sets. }
  assert (Hcat : category who = "arn" ∨ category who = "principal") by sets.
  rewrite (bool_decide_true _ Hcat).
  destruct (decide (value who = "*")) as [Hv|Hv].
  { by rewrite (bool_decide_true _ Hv). }
  rewrite (bool_decide_false _ Hv). cbn [andb negb].
  destruct (root (ARN (value who))); [|done]. cbn [andb].
  destruct (inspect_who_at s s' F T home item who Hg Hreg Hhome)
    as (r & Heq & Hr & Hg' & Hcalls & Hset).
  { intros Hcidr. destruct Hcat as [E|E]; rewrite E in Hcidr; discriminate. }
  destruct (Hset Hcat) as [tiers ->].
  rewrite Hr, (bind_inr _ _ _ _ _ _ Heq). cbn [result store calls py_intersection].
  rewrite bind_ret.
  destruct (decide (tiers ∩ {["FRIENDLY"; "THIRDPARTY"; "UNKNOWN"]} = ∅)) as [E|E].
  - rewrite bool_decide_false by (intros H; by apply H).
    cbn. rewrite List.filter_app, (filter_parse_root _ Hcalls). done.
  - rewrite bool_decide_true by done.
    cbn. rewrite List.filter_app, (filter_parse_root _ Hcalls). done.
Qed.

(** C8. With the registry in place and the item's account on record,
    the root cross-account check completes, and the root-access findings
    it hands to [_check_cross_account_root] are, in order, one per
    reference such that the enclosing statement has effect Allow, the
    category is [arn] or [principal], the value is not ["*"], the parsed
    ARN is a root ARN and the resolved set meets
    {FRIENDLY, THIRDPARTY, UNKNOWN}; each carries the statement's
    actions.  No other reference gives one. *)
Theorem check_root_cross_account_findings (item : Item) (s : Store)
    (F T : gset string) (home : Account) :
  registry s F T →
  home_account item = Some home →
  result (check_root_cross_account item s) = inr tt ∧
  List.filter is_root_finding (calls (check_root_cross_account item s))
    = root_findings item s.
Proof.
  intros Hreg Hhome.
  unfold check_root_cross_account, root_findings.
  apply for_each_grows.
  intros policy s1 Hp Hs1.
  apply (for_each_spec (grows s)); [|done].
  intros statement s2 Hst Hs2.
  destruct (decide (effect statement = "Allow")) as [E|E].
  - rewrite (bool_decide_true _ E).
    apply (for_each_spec (grows s)); [|done].
    intros who s3 Hw Hs3. by apply (root_who_spec s s3 F T home).
  - by rewrite (bool_decide_false _ E).
Qed.


(** *** Unparsable ARNs *)

Lemma goes_on_intro body who s : result (body who s) = inr tt → goes_on body who s.
Proof. intros H rest. cbn [for_each]. unfold bind. by rewrite H. Qed.

Lemma friendly_who_result item who s r :
  result (inspect_who who item s) = inr r → result (friendly_who item who s) = inr tt.
Proof. intros H. unfold friendly_who, bind. rewrite H. by destruct (py_in _ r). Qed.

Lemma thirdparty_who_result item who s r :
  result (inspect_who who item s) = inr r → result (thirdparty_who item who s) = inr tt.
Proof. intros H. unfold thirdparty_who, bind. rewrite H. by destruct (py_in _ r). Qed.

(** C7. For an [arn] or [principal] reference whose value is not ["*"]
    and whose ARN fails to parse, with the registry in place and the
    item's account on record: [inspect_who] reports exactly one finding,
    severity 3, tag "Auditor could not parse ARN", carrying the value; it
    still returns a set of tiers, which is the singleton UNKNOWN when the
    failed parse left technology and account number unset; and each
    check's loop over the references gets past this one. *)
Theorem unparsable_arn_reported (who : Who) (item : Item) (s : Store)
    (F T : gset string) (home : Account) :
  category who = "arn" ∨ category who = "principal" →
  value who ≠ "*" →
  error (ARN (value who)) = true →
  registry s F T →
  home_account item = Some home →
  calls (inspect_who who item s)
    = [add_issue 3 "Auditor could not parse ARN" item (Some (value who))] ∧
  (∃ tiers,
      result (inspect_who who item s) = inr (PySet tiers) ∧
      (tech (ARN (value who)) = None → account_number (ARN (value who)) = None →
       tiers = {["UNKNOWN"]})) ∧
  goes_on (friendly_who item) who s ∧
  goes_on (thirdparty_who item) who s ∧
  goes_on (unknown_who item) who s ∧
  ∀ statement, goes_on (root_who item statement) who s.
Proof.
  intros Hcat Hv Herr Hreg Hhome.
  destruct (inspect_who_arn_run s F T home item (value who) Hreg Hv)
    as (tiers & s' & Hrun & Hno).
  rewrite Herr in Hrun.
  assert (Hwho : inspect_who who item s =
            mkOutcome (inr (PySet tiers)) s'
              [add_issue 3 "Auditor could not parse ARN" item (Some (value who))]).
  { unfold inspect_who. rewrite Hhome.
    rewrite decide_True by (destruct Hcat as [E|E]; rewrite E; sets).
    by rewrite (bind_inr _ _ _ _ _ _ Hrun). }
  assert (Hnet : networks_readable s who).
  { intros Hcidr. destruct Hcat as [E|E]; rewrite E in Hcidr; discriminate. }
  split; [by rewrite Hwho|]. split.
  - exists tiers. split; [by rewrite Hwho|].
    intros Htech Hacct. destruct Hno as [-> _]; [by rewrite Htech|].
    by rewrite Hacct.
  - split; [|split; [|split]].
    + apply goes_on_intro. eapply friendly_who_result. by rewrite Hwho.
    + apply goes_on_intro. eapply thirdparty_who_result. by rewrite Hwho.
    + apply goes_on_intro.
      by destruct (unknown_who_spec s s F T home item who (grows_refl s) Hreg Hhome Hnet).
    + intros statement. apply goes_on_intro.
      by destruct (root_who_spec s s F T home item statement who (grows_refl s) Hreg Hhome).
Qed.

(** *** Unrecognised categories *)

(** C4 (as amended). For a reference whose category is none of [arn],
    [principal], [account], [userid], [cidr], [vpc], [vpce],
    [inspect_who] returns an ERROR marker: ERROR tests as a member of the
    result and SAME, FRIENDLY, THIRDPARTY, UNKNOWN do not; it reports
    nothing and leaves the store as it was.  The friendly, third-party
    and unknown checks report nothing for such a reference, so it is not
    turned into UNKNOWN, and the root check passes over it. *)
Theorem unrecognized_category_error (who : Who) (item : Item) (s : Store) :
  category who ∉ ["arn"; "principal"; "account"; "userid"; "cidr"; "vpc"; "vpce"] →
  (∃ r, inspect_who who item s = mkOutcome (inr r) s [] ∧
        py_in "ERROR" r = true ∧ py_in "SAME" r = false ∧
        py_in "FRIENDLY" r = false ∧ py_in "THIRDPARTY" r = false ∧
        py_in "UNKNOWN" r = false) ∧
  friendly_who item who s = mkOutcome (inr tt) s [] ∧
  thirdparty_who item who s = mkOutcome (inr tt) s [] ∧
  unknown_who item who s = mkOutcome (inr tt) s [] ∧
  ∀ statement, root_who item statement who s = mkOutcome (inr tt) s [].
Proof.
  intros Hcat.
  assert (Hrun : inspect_who who item s = mkOutcome (inr (PyStr "ERROR")) s []).
  { unfold inspect_who.
    rewrite decide_False by (intros H; apply Hcat; sets).
    repeat (rewrite decide_False; [|intros E; apply Hcat; rewrite E; sets]).
    reflexivity. }
  split; [exists (PyStr "ERROR"); by repeat split|].
  split; [unfold friendly_who; by rewrite (bind_pure _ _ _ _ Hrun)|].
  split; [unfold thirdparty_who; by rewrite (bind_pure _ _ _ _ Hrun)|].
  split.
  - unfold unknown_who.
    rewrite (bool_decide_false (category who = "principal"))
      by (intros E; apply Hcat; rewrite E; sets).
    rewrite andb_false_r. cbn [andb].
    by rewrite (bind_pure _ _ _ _ Hrun).
  - intros statement. unfold root_who.
    by rewrite decide_False by (intros H; apply Hcat; sets).
Qed.

(** *** Resolution and the store *)

Lemma grows_full s s' :
  (∀ t, t ∈ table_names → is_Some (s !! t)) → grows s s' → s' = s.
Proof.
  intros Hfull Hg. apply map_eq. intros t.
  destruct (Hg t) as [E|(N & _ & Ht)]; [done|].
  destruct (Hfull t Ht) as [x Hx]. congruence.
Qed.

(** C9 (as amended). Resolution never changes a table that exists nor
    adds a key to one: after [inspect_who], [inspect_who_generic] (on one
    of the auditor's table names), [inspect_who_cidr] or
    [inspect_who_account], every table name reads as before, except that
    a table name of the auditor that was absent may now hold an empty
    table.  When all the auditor's tables exist the store is the same
    before and after. *)
Theorem resolution_creates_only_empty_tables (who : Who) (item : Item)
    (key : string) (k : option string) (cidr : string) (a : option string)
    (same : option Account) (s : Store) :
  (grows s (store (inspect_who who item s)) ∧
   (key ∈ table_names → grows s (store (inspect_who_generic key k same s))) ∧
   grows s (store (inspect_who_cidr cidr same s)) ∧
   grows s (store (inspect_who_account a same s))) ∧
  ((∀ t, t ∈ table_names → is_Some (s !! t)) →
   store (inspect_who who item s) = s ∧
   (key ∈ table_names → store (inspect_who_generic key k same s) = s) ∧
   store (inspect_who_cidr cidr same s) = s ∧
   store (inspect_who_account a same s) = s).
Proof.
  assert (H1 := proj1 (lookup_only_inspect_who who item s)).
  assert (H2 : key ∈ table_names → grows s (store (inspect_who_generic key k same s))).
  { intros Hk. apply (lookup_only_inspect_who_generic no_call key k same Hk s). }
  assert (H3 := proj1 (lookup_only_inspect_who_cidr no_call cidr same s)).
  assert (H4 := proj1 (lookup_only_inspect_who_account no_call a same s)).
  split; [done|].
  intros Hfull. repeat split; try intros Hk; apply grows_full; auto.
Qed.

(** *** The SNS auditor *)

(** C10. [check_snstopicpolicy_empty] reports exactly one finding,
    severity 1, tag "SNS Topic Policy is empty", when the item's
    configuration has no ['policy'] key or maps it to an empty mapping,
    and reports nothing for any other value under that key. *)
Theorem check_snstopicpolicy_empty_spec (snsitem : Item) (s : Store) :
  (config snsitem !! "policy" = None ∨ config snsitem !! "policy" = Some (JDict []) →
   check_snstopicpolicy_empty snsitem s =
     mkOutcome (inr tt) s [add_issue 1 "SNS Topic Policy is empty" snsitem None]) ∧
  (∀ v, config snsitem !! "policy" = Some v → v ≠ JDict [] →
        check_snstopicpolicy_empty snsitem s = mkOutcome (inr tt) s []).
Proof.
  unfold check_snstopicpolicy_empty. split.
  - intros [-> | ->]; reflexivity.
  - intros v -> Hv. cbn.
    destruct v as [| | | | |[|]]; try reflexivity. done.
Qed.


(** *** Building the store once *)

Lemma preserves_ret {A} I (a : A) : preserves I (ret a).
Proof. by intros s H. Qed.

Lemma preserves_raise {A} I e : preserves I (@raise A e).
Proof. by intros s H. Qed.

Lemma preserves_getitem {V} I (d : gmap string V) k : preserves I (getitem d k).
Proof. unfold getitem. destruct (d !! k); [apply preserves_ret|apply preserves_raise]. Qed.

Lemma preserves_bind {A B} I (m : M A) (f : A -> M B) :
  preserves I m → (∀ a, preserves I (f a)) → preserves I (bind m f).
Proof.
  intros Hm Hf s H. unfold bind.
  destruct (result (m s)); cbn; [by apply Hm|]. by apply Hf, Hm.
Qed.

Lemma preserves_for_each {A} I (l : list A) body :
  (∀ x, preserves I (body x)) → preserves I (for_each l body).
Proof.
  intros Hb. induction l as [|x l IH]; cbn; [apply preserves_ret|].
  apply preserves_bind; auto.
Qed.

Lemma bind_store {A B} (m : M A) (f : A -> M B) s a :
  result (m s) = inr a → store (bind m f s) = store (f a (store (m s))).
Proof. intros H. unfold bind. by rewrite H. Qed.

Lemma bind_result {A B} (m : M A) (f : A -> M B) s a :
  result (m s) = inr a → result (bind m f s) = result (f a (store (m s))).
Proof. intros H. unfold bind. by rewrite H. Qed.

Lemma for_each_result {A} (l : list A) body :
  (∀ x s, result (body x s) = inr tt) → ∀ s, result (for_each l body s) = inr tt.
Proof.
  intros Hb. induction l as [|x l IH]; intros s; cbn; [done|].
  rewrite (bind_result _ _ _ tt) by apply Hb. apply IH.
Qed.

(** What the writes of the loaders do to the tables. *)

Lemma add_to_result t key value s : result (add_to t key value s) = inr tt.
Proof. unfold add_to, bind. by rewrite get_table_result. Qed.

Lemma add_to_store t key value s :
  store (add_to t key value s)
  = <[t := add (table s t) key value]> (store (get_table t s)).
Proof. unfold add_to, bind. by rewrite get_table_result. Qed.

Lemma table_insert s t tbl t' :
  table (<[t := tbl]> s) t' = if decide (t = t') then tbl else table s t'.
Proof.
  unfold table. destruct (decide (t = t')) as [<-|Hne].
  - by rewrite lookup_insert_eq.
  - by rewrite lookup_insert_ne.
Qed.

Lemma add_to_table t key value s t' :
  table (store (add_to t key value s)) t'
  = if decide (t = t') then add (table s t) key value else table s t'.
Proof.
  rewrite add_to_store, table_insert.
  destruct (decide (t = t')); [done|]. symmetry. apply get_table_view.
Qed.

Lemma add_address_cases address k value s :
  match address !! k with
  | Some key => add_address address k value s = add_to "cidr" key value s
  | None => store (add_address address k value s) = store (get_table "cidr" s)
  end.
Proof.
  unfold add_address, add_to, getitem, bind.
  rewrite get_table_result. cbn. by destruct (address !! k).
Qed.

Lemma reset_accounts_result k s : result (reset_accounts k s) = inr tt.
Proof. unfold reset_accounts, bind. by rewrite get_table_result. Qed.

Lemma reset_accounts_table k s t' :
  table (store (reset_accounts k s)) t'
  = if decide ("ACCOUNTS" = t') then <[k := ∅]> (table s "ACCOUNTS") else table s t'.
Proof.
  unfold reset_accounts, bind. rewrite get_table_result. cbn.
  rewrite table_insert.
  destruct (decide _); [done|]. symmetry. apply get_table_view.
Qed.

Lemma add_keeps_key to key value k' :
  is_Some (to !! k') → is_Some (add to key value !! k').
Proof.
  intros H. unfold add. destruct (key_falsy key); [done|].
  destruct key as [k|]; [|done].
  destruct (decide (k = k')) as [<-|Hne].
  - destruct (to !! k); by rewrite lookup_insert_eq.
  - destruct (to !! k); by rewrite lookup_insert_ne.
Qed.

Lemma add_nonempty to key value :
  map_Forall (λ _ accounts, accounts ≠ (∅ : gset string)) to →
  map_Forall (λ _ accounts, accounts ≠ (∅ : gset string)) (add to key value).
Proof.
  intros H k' A. unfold add. destruct (key_falsy key); [apply H|].
  destruct key as [k|]; [|apply H].
  destruct (decide (k = k')) as [<-|Hne].
  - destruct (to !! k) as [A0|]; rewrite lookup_insert_eq; intros [= <-].
    + intros E. assert (value ∈ A0 ∪ {[value]}) as Hin
        by (apply elem_of_union; right; by apply elem_of_singleton).
      rewrite E in Hin. by apply not_elem_of_empty in Hin.
    + intros E. assert (value ∈ ({[value]} : gset string)) as Hin
        by by apply elem_of_singleton.
      rewrite E in Hin. by apply not_elem_of_empty in Hin.
  - destruct (to !! k); rewrite lookup_insert_ne by done; apply H.
Qed.

(** Owners stay. *)

Lemma owned_add_to t key value : preserves owned (add_to t key value).
Proof.
  intros s H t' Ht'. rewrite add_to_table.
  destruct (decide (t = t')) as [<-|Hne]; [|by apply H].
  apply add_nonempty. by apply H.
Qed.

Lemma owned_add_address address k value : preserves owned (add_address address k value).
Proof.
  intros s H. pose proof (add_address_cases address k value s) as Hc.
  destruct (address !! k) as [key|].
  - rewrite Hc. by apply owned_add_to.
  - rewrite Hc. intros t' Ht'. rewrite <- (get_table_view s "cidr" t'). by apply H.
Qed.

Lemma owned_reset_accounts k : preserves owned (reset_accounts k).
Proof.
  intros s H t' Ht'. rewrite reset_accounts_table.
  rewrite decide_False by done. by apply H.
Qed.

(** The sets of the registry stay. *)

Lemma set_add_to t key value k : preserves (has_set k) (add_to t key value).
Proof.
  intros s H. unfold has_set in *. rewrite add_to_table.
  destruct (decide (t = "ACCOUNTS")) as [->|Hne]; [|done].
  by apply add_keeps_key.
Qed.

Lemma set_add_address address k' value k :
  preserves (has_set k) (add_address address k' value).
Proof.
  intros s H. pose proof (add_address_cases address k' value s) as Hc.
  destruct (address !! k') as [key|].
  - rewrite Hc. by apply set_add_to.
  - rewrite Hc. unfold has_set in *. by rewrite <- (get_table_view s "cidr" "ACCOUNTS").
Qed.

Lemma set_reset_accounts k' k : preserves (has_set k) (reset_accounts k').
Proof.
  intros s H. unfold has_set in *. rewrite reset_accounts_table.
  rewrite decide_True by done.
  destruct (decide (k' = k)) as [<-|Hne].
  - by rewrite lookup_insert_eq.
  - by rewrite lookup_insert_ne.
Qed.

Lemma reset_accounts_sets k s : has_set k (store (reset_accounts k s)).
Proof.
  unfold has_set. rewrite reset_accounts_table, decide_True by done.
  by rewrite lookup_insert_eq.
Qed.

Lemma has_sets_registry s :
  has_set "FRIENDLY" s → has_set "THIRDPARTY" s → ∃ F T, registry s F T.
Proof.
  unfold has_set, table. intros [F HF] [T HT].
  destruct (s !! "ACCOUNTS") as [acc|] eqn:E; cbn in *.
  - exists F, T, acc. done.
  - by rewrite lookup_empty in HF.
Qed.

(** The loaders, one by one. *)

Lemma load_accounts_result s : result (_load_accounts s) = inr tt.
Proof.
  unfold _load_accounts.
  rewrite (bind_result _ _ _ tt) by apply reset_accounts_result.
  rewrite (bind_result _ _ _ tt)
    by (apply for_each_result; intros; apply add_to_result).
  rewrite (bind_result _ _ _ tt) by apply reset_accounts_result.
  apply for_each_result; intros; apply add_to_result.
Qed.

Lemma load_accounts_sets s :
  has_set "FRIENDLY" (store (_load_accounts s)) ∧
  has_set "THIRDPARTY" (store (_load_accounts s)).
Proof.
  unfold _load_accounts.
  rewrite (bind_store _ _ _ tt) by apply reset_accounts_result.
  rewrite (bind_store _ _ _ tt)
    by (apply for_each_result; intros; apply add_to_result).
  rewrite (bind_store _ _ _ tt) by apply reset_accounts_result.
  split.
  - apply preserves_for_each; [intros; apply set_add_to|].
    apply set_reset_accounts.
    apply preserves_for_each; [intros; apply set_add_to|].
    apply reset_accounts_sets.
  - apply preserves_for_each; [intros; apply set_add_to|].
    apply reset_accounts_sets.
Qed.

Lemma preserves_load_accounts I :
  (∀ k, preserves I (reset_accounts k)) →
  (∀ t key value, preserves I (add_to t key value)) →
  preserves I _load_accounts.
Proof.
  intros Hr Ha. unfold _load_accounts.
  apply preserves_bind; [apply Hr|intros _].
  apply preserves_bind; [apply preserves_for_each; intros; apply Ha|intros _].
  apply preserves_bind; [apply Hr|intros _].
  apply preserves_for_each; intros; apply Ha.
Qed.

Lemma preserves_load_s3_buckets I :
  (∀ t key value, preserves I (add_to t key value)) → preserves I _load_s3_buckets.
Proof. intros Ha. apply preserves_for_each; intros; apply Ha. Qed.

Lemma preserves_load_userids I :
  (∀ t key value, preserves I (add_to t key value)) → preserves I _load_userids.
Proof.
  intros Ha. unfold _load_userids.
  apply preserves_bind; [apply preserves_for_each; intros; apply Ha|intros _].
  apply preserves_for_each; intros; apply Ha.
Qed.

(** The loaders that run after [_load_accounts]. *)
Lemma preserves_load_rest I :
  (∀ t key value, preserves I (add_to t key value)) →
  (∀ address k value, preserves I (add_address address k value)) →
  preserves I
    (_load_vpcs ;;; _load_vpces ;;; _load_natgateways ;;; _load_network_whitelist).
Proof.
  intros Ha Hd.
  apply preserves_bind.
  { apply preserves_for_each. intros item.
    apply preserves_bind; [apply Ha|intros _; apply Ha]. }
  intros _. apply preserves_bind; [apply preserves_for_each; intros; apply Ha|].
  intros _. apply preserves_bind.
  { apply preserves_for_each. intros gateway. apply preserves_for_each. intros address.
    apply preserves_bind; [apply Hd|intros _; apply Hd]. }
  intros _. apply preserves_for_each; intros; apply Ha.
Qed.

Lemma load_s3_buckets_result s : result (_load_s3_buckets s) = inr tt.
Proof. apply for_each_result. intros. apply add_to_result. Qed.

Lemma load_userids_result s : result (_load_userids s) = inr tt.
Proof.
  unfold _load_userids.
  rewrite (bind_result _ _ _ tt)
    by (apply for_each_result; intros; apply add_to_result).
  apply for_each_result. intros. apply add_to_result.
Qed.

Lemma prep_for_audit_empty_store :
  store (prep_for_audit ∅)
  = store ((_load_vpcs ;;; _load_vpces ;;; _load_natgateways ;;; _load_network_whitelist)
             (store (_load_accounts (store (_load_userids (store (_load_s3_buckets ∅))))))).
Proof.
  unfold prep_for_audit. rewrite decide_True by done.
  rewrite (bind_store _ _ _ tt) by apply load_s3_buckets_result.
  rewrite (bind_store _ _ _ tt) by apply load_userids_result.
  by rewrite (bind_store _ _ _ tt) by apply load_accounts_result.
Qed.

(** From the empty store, [prep_for_audit] puts the registry in place
    and gives every key of the other tables an owner, also when a NAT
    gateway address lacks a field and the build stops there. *)
Lemma prep_for_audit_builds :
  (∃ F T, registry (store (prep_for_audit ∅)) F T) ∧
  owned (store (prep_for_audit ∅)).
Proof.
  rewrite prep_for_audit_empty_store. split.
  - apply has_sets_registry.
    + apply preserves_load_rest;
        [intros; apply set_add_to|intros; apply set_add_address|].
      apply load_accounts_sets.
    + apply preserves_load_rest;
        [intros; apply set_add_to|intros; apply set_add_address|].
      apply load_accounts_sets.
  - apply preserves_load_rest;
      [intros; apply owned_add_to|intros; apply owned_add_address|].
    apply preserves_load_accounts;
      [intros; apply owned_reset_accounts|intros; apply owned_add_to|].
    apply preserves_load_userids; [intros; apply owned_add_to|].
    apply preserves_load_s3_buckets; [intros; apply owned_add_to|].
    intros t _ k A. unfold table. by rewrite lookup_empty.
Qed.

Lemma prep_for_audit_leaves_accounts s :
  s = ∅ → has_name "ACCOUNTS" (store (prep_for_audit s)).
Proof.
  intros ->. destruct prep_for_audit_builds as [(F & T & acc & Hacc & _) _].
  unfold has_name. by rewrite Hacc.
Qed.

(** C6. Once some table of the store is non-empty, [prep_for_audit] is
    a no-op: it returns with the store as it was, so no table gains or
    loses an entry.  In particular a second [prep_for_audit] right after a
    first one, from any store, changes nothing. *)
Theorem prep_for_audit_once (s : Store) :
  ((∃ t tbl, s !! t = Some tbl ∧ tbl ≠ ∅) →
   prep_for_audit s = mkOutcome (inr tt) s [] ∧
   ∀ t, size (table (store (prep_for_audit s)) t) = size (table s t)) ∧
  prep_for_audit (store (prep_for_audit s))
    = mkOutcome (inr tt) (store (prep_for_audit s)) [].
Proof.
  assert (Hguard : ∀ s', s' ≠ ∅ → prep_for_audit s' = mkOutcome (inr tt) s' []).
  { intros s' Hne. unfold prep_for_audit. by rewrite decide_False. }
  split.
  - intros (t & tbl & Ht & _).
    assert (Hne : s ≠ ∅) by (intros ->; by rewrite lookup_empty in Ht).
    rewrite (Hguard s Hne). done.
  - apply Hguard. destruct (decide (s = ∅)) as [Hs|Hs].
    + intros Hempty. destruct (prep_for_audit_leaves_accounts s Hs) as [x Hx].
      rewrite Hempty, lookup_empty in Hx. done.
    + by rewrite (Hguard s Hs).
Qed.


(** ** Further properties of the code *)

(** *** The friendly and third-party checks *)

Lemma filter_parse_friendly l :
  Forall is_parse_issue l → List.filter is_friendly_issue l = [].
Proof.
  induction 1 as [|c l (item & notes & ->) _ IH]; [done|]. cbn. exact IH.
Qed.

Lemma filter_parse_thirdparty l :
  Forall is_parse_issue l → List.filter is_thirdparty_issue l = [].
Proof.
  induction 1 as [|c l (item & notes & ->) _ IH]; [done|]. cbn. exact IH.
Qed.

Lemma friendly_who_spec s s' F T home item who :
  grows s s' → registry s F T → home_account item = Some home →
  networks_readable s who →
  result (friendly_who item who s') = inr tt ∧
  grows s (store (friendly_who item who s')) ∧
  List.filter is_friendly_issue (calls (friendly_who item who s')) =
    (if resolves_to "FRIENDLY" who item s
     then [add_issue 0 "Friendly Cross Account Access" item
             (Some ("Access provided to " ++ category who ++ ":" ++ value who ++ "."))]
     else []).
Proof.
  intros Hg Hreg Hhome Hnet.
  destruct (inspect_who_at s s' F T home item who Hg Hreg Hhome Hnet)
    as (r & Heq & Hr & Hg' & Hc & _).
  unfold friendly_who, resolves_to. rewrite Hr.
  rewrite (bind_inr _ _ _ _ _ _ Heq); cbn [result store calls].
  destruct (py_in "FRIENDLY" r); cbn [result store calls ret
    record_friendly_cross_account_access_issue emit];
    rewrite List.filter_app, (filter_parse_friendly _ Hc); done.
Qed.

Lemma thirdparty_who_spec s s' F T home item who :
  grows s s' → registry s F T → home_account item = Some home →
  networks_readable s who →
  result (thirdparty_who item who s') = inr tt ∧
  grows s (store (thirdparty_who item who s')) ∧
  List.filter is_thirdparty_issue (calls (thirdparty_who item who s')) =
    (if resolves_to "THIRDPARTY" who item s
     then [add_issue 0 "Friendly Third Party Cross Account Access" item
             (Some ("Access provided to " ++ category who ++ ":" ++ value who ++ "."))]
     else []).
Proof.
  intros Hg Hreg Hhome Hnet.
  destruct (inspect_who_at s s' F T home item who Hg Hreg Hhome Hnet)
    as (r & Heq & Hr & Hg' & Hc & _).
  unfold thirdparty_who, resolves_to. rewrite Hr.
  rewrite (bind_inr _ _ _ _ _ _ Heq); cbn [result store calls].
  destruct (py_in "THIRDPARTY" r); cbn [result store calls ret
    record_thirdparty_cross_account_access_issue emit];
    rewrite List.filter_app, (filter_parse_thirdparty _ Hc); done.
Qed.

(** X1. With the registry in place, the item's account on record and
    the network strings of [cidr] references readable, the friendly
    cross-account check completes and reports, in order, one severity-0
    finding tagged "Friendly Cross Account Access" for each reference of
    each policy that has FRIENDLY in what [inspect_who] resolves it to,
    and no such finding for any other reference.  Unlike the unknown
    check it skips neither internet-accessible policies nor the wildcard. *)
Theorem check_friendly_cross_account_findings (item : Item) (s : Store)
    (F T : gset string) (home : Account) :
  registry s F T →
  home_account item = Some home →
  (∀ policy who, policy ∈ load_policies item → who ∈ whos_allowed policy →
                 networks_readable s who) →
  result (check_friendly_cross_account item s) = inr tt ∧
  List.filter is_friendly_issue (calls (check_friendly_cross_account item s))
    = tier_findings "FRIENDLY" "Friendly Cross Account Access" item s.
Proof.
  intros Hreg Hhome Hnet.
  unfold check_friendly_cross_account, tier_findings.
  apply for_each_grows.
  intros policy s1 Hp Hs1.
  apply (for_each_spec (grows s)); [|done].
  intros who s2 Hw Hs2.
  apply (friendly_who_spec s s2 F T home); auto. by apply (Hnet policy).
Qed.

(** X2. Under the same conditions the third-party cross-account check
    completes and reports, in order, one severity-0 finding tagged
    "Friendly Third Party Cross Account Access" for each reference that
    has THIRDPARTY in what [inspect_who] resolves it to, and no such
    finding for any other reference. *)
Theorem check_thirdparty_cross_account_findings (item : Item) (s : Store)
    (F T : gset string) (home : Account) :
  registry s F T →
  home_account item = Some home →
  (∀ policy who, policy ∈ load_policies item → who ∈ whos_allowed policy →
                 networks_readable s who) →
  result (check_thirdparty_cross_account item s) = inr tt ∧
  List.filter is_thirdparty_issue (calls (check_thirdparty_cross_account item s))
    = tier_findings "THIRDPARTY" "Friendly Third Party Cross Account Access" item s.
Proof.
  intros Hreg Hhome Hnet.
  unfold check_thirdparty_cross_account, tier_findings.
  apply for_each_grows.
  intros policy s1 Hp Hs1.
  apply (for_each_spec (grows s)); [|done].
  intros who s2 Hw Hs2.
  apply (thirdparty_who_spec s s2 F T home); auto. by apply (Hnet policy).
Qed.

(** *** [add] as an operation on tables *)

Lemma add_insert to k value :
  k ≠ "" → add to (Some k) value = <[k := default ∅ (to !! k) ∪ {[value]}]> to.
Proof.
  intros Hk. unfold add, key_falsy.
  apply String.eqb_neq in Hk. rewrite Hk.
  destruct (to !! k); cbn; [done|]. by rewrite (left_id_L ∅ (∪)).
Qed.

Lemma add_cases to key value :
  add to key value = to ∨
  ∃ k, key = Some k ∧ k ≠ "" ∧
       add to key value = <[k := default ∅ (to !! k) ∪ {[value]}]> to.
Proof.
  destruct key as [k|]; [|by left].
  destruct (decide (k = "")) as [->|Hk]; [by left|].
  right. exists k. split; [done|]. split; [done|]. by apply add_insert.
Qed.

(** X3. Adding the same association twice is the same as adding it
    once, and two additions give the same table in either order: the
    table [add] builds does not depend on the order or the repetition of
    the stored items it is fed. *)
Theorem add_idempotent_commutative (to : gmap string (gset string))
    (k1 k2 : option string) (v1 v2 : string) :
  add (add to k1 v1) k1 v1 = add to k1 v1 ∧
  add (add to k1 v1) k2 v2 = add (add to k2 v2) k1 v1.
Proof.
  split.
  - destruct k1 as [k|]; [|done].
    destruct (decide (k = "")) as [->|Hk]; [done|].
    rewrite !add_insert by done. rewrite lookup_insert_eq, insert_insert_eq. cbn.
    f_equal. sets.
  - destruct k1 as [a|]; [|done]. destruct k2 as [b|]; [|done].
    destruct (decide (a = "")) as [->|Ha]; [done|].
    destruct (decide (b = "")) as [->|Hb]; [done|].
    rewrite !add_insert by done.
    destruct (decide (a = b)) as [->|Hab].
    + rewrite !lookup_insert_eq, !insert_insert_eq. cbn. f_equal. sets.
    + rewrite !lookup_insert_ne by done. by apply insert_insert_ne.
Qed.

(** *** User ids *)

Lemma split_colon_head_app p q :
  colon_free p = true → split_colon_head (p ++ ":" ++ q) = p.
Proof.
  induction p as [|c p IH]; intros H; [reflexivity|].
  simpl in H. apply andb_prop in H as [Hc Hp].
  change (split_colon_head (String c (p ++ ":" ++ q)) = String c p).
  simpl. destruct (Ascii.eqb c ":"); [done|]. by rewrite (IH Hp).
Qed.

Lemma split_colon_head_free p : colon_free p = true → split_colon_head p = p.
Proof.
  induction p as [|c p IH]; intros H; [reflexivity|].
  simpl in H. apply andb_prop in H as [Hc Hp].
  simpl. destruct (Ascii.eqb c ":"); [done|]. by rewrite (IH Hp).
Qed.

Lemma inspect_who_userid_unfold who item s :
  category who = "userid" →
  inspect_who who item s =
    (tiers <- inspect_who_userid (value who) (home_account item) ;; ret (PySet tiers)) s.
Proof.
  intros Hc. unfold inspect_who. rewrite Hc.
  rewrite decide_False by sets.
  rewrite decide_False by done. by rewrite decide_True by done.
Qed.

(** X4. A [userid] reference is resolved by what precedes its first
    colon: the reference ["<id>:<session>"] gives the same outcome, on any
    store, as the reference ["<id>"]. *)
Theorem userid_session_ignored (p q : string) (item : Item) (s : Store) :
  colon_free p = true →
  inspect_who (mkWho "userid" (p ++ ":" ++ q)) item s
  = inspect_who (mkWho "userid" p) item s.
Proof.
  intros Hp. rewrite !inspect_who_userid_unfold by done.
  unfold inspect_who_userid. cbn [value].
  by rewrite split_colon_head_app, split_colon_head_free.
Qed.


(** *** Lookups after additions *)

Lemma registry_add_to s t key value F T :
  t ≠ "ACCOUNTS" → registry s F T → registry (store (add_to t key value s)) F T.
Proof.
  intros Ht Hreg. rewrite add_to_store.
  destruct (get_table_registry s t F T Hreg) as (acc & Hacc & HF & HT).
  exists acc. by rewrite lookup_insert_ne.
Qed.

Lemma account_tier_intro s F T home a :
  registry s F T →
  result (inspect_who_account (Some a) (Some home) s)
  = inr (resolveAccount F T home (Some a)).
Proof. intros Hreg. by rewrite (inspect_who_account_run s F T home _ Hreg). Qed.

Lemma account_tier_elim s F T home a tier :
  registry s F T →
  result (inspect_who_account (Some a) (Some home) s) = inr tier →
  tier = resolveAccount F T home (Some a).
Proof.
  intros Hreg. rewrite (inspect_who_account_run s F T home _ Hreg). cbn.
  by intros [= <-].
Qed.

(** X5. Insert then look up: after [add(OBJECT_STORE[t], k, a)] on one
    of the identifier tables with a non-empty key, resolving [k] in that
    table gives exactly the tiers of [a] and of the owners [k] already
    had. *)
Theorem lookup_after_add (t k a : string) (s : Store) (F T : gset string)
    (home : Account) :
  t ∈ ["s3"; "userid"; "vpc"; "vpce"] →
  k ≠ "" →
  registry s F T →
  ∃ tiers,
    result (inspect_who_generic t (Some k) (Some home)
              (store (add_to t (Some k) a s))) = inr tiers ∧
    ∀ tier, tier ∈ tiers ↔
            ∃ a', (a' = a ∨ owner_of s t k a') ∧
                  result (inspect_who_account (Some a') (Some home) s) = inr tier.
Proof.
  intros Ht Hk Hreg.
  assert (Hne : t ≠ "ACCOUNTS") by (intros ->; sets).
  pose proof (registry_add_to s t (Some k) a F T Hne Hreg) as Hreg'.
  rewrite (inspect_who_generic_run _ F T home t (Some k) Hreg'). cbn [result].
  rewrite add_to_table, decide_True by done.
  rewrite add_truthy_lookup by done.
  eexists. split; [reflexivity|].
  intros tier. rewrite elem_of_map. split.
  - intros (a' & -> & Ha'). exists a'. split; [|by apply account_tier_intro].
    apply elem_of_union in Ha' as [Ha'|Ha'].
    + right. unfold owner_of. destruct (table s t !! k) as [A|]; [eauto|].
      by apply not_elem_of_empty in Ha'.
    + left. by apply elem_of_singleton in Ha'.
  - intros (a' & Ha' & Htier). exists a'.
    split; [by apply (account_tier_elim s F T home)|].
    apply elem_of_union. destruct Ha' as [->|(A & HA & Hin)].
    + right. by apply elem_of_singleton.
    + left. by rewrite HA.
Qed.

Lemma cidr_result_nonempty (V : gset string) :
  (if decide (V = ∅) then ({["UNKNOWN"]} : gset string) else V) ≠ ∅.
Proof.
  destruct (decide (V = ∅)); [|done].
  intros E. assert ("UNKNOWN" ∈ ({["UNKNOWN"]} : gset string)) as Hin
    by by apply elem_of_singleton.
  rewrite E in Hin. by apply not_elem_of_empty in Hin.
Qed.

(** X6. Insert then look up on networks: after
    [add(OBJECT_STORE['cidr'], k, a)], a query network lying inside the
    network [k] resolves to a set holding the tier of [a]; for the
    sentinel owner of the network whitelist that tier is SAME. *)
Theorem cidr_lookup_after_add (s : Store) (F T : gset string) (home : Account)
    (k a q : string) (stored query : Net) :
  registry s F T →
  k ≠ "" →
  IPNetwork k = Some stored →
  IPNetwork q = Some query →
  net_in query stored = true →
  (∀ k', is_Some (table s "cidr" !! k') → is_Some (IPNetwork k')) →
  ∃ tiers,
    result (inspect_who_cidr q (Some home) (store (add_to "cidr" (Some k) a s)))
      = inr tiers ∧
    (∀ tier, result (inspect_who_account (Some a) (Some home) s) = inr tier →
             tier ∈ tiers) ∧
    (a = "000000000000" → "SAME" ∈ tiers).
Proof.
  intros Hreg Hk Hstored Hq Hin Hkeys.
  set (s' := store (add_to "cidr" (Some k) a s)).
  assert (Hreg' : registry s' F T) by by apply registry_add_to.
  assert (Htbl : table s' "cidr" = add (table s "cidr") (Some k) a).
  { unfold s'. by rewrite add_to_table, decide_True. }
  destruct (inspect_who_cidr_run s' F T home q query Hreg' Hq) as (V & Hrun & Hchar).
  { intros k' Hk'. rewrite Htbl in Hk'.
    destruct (decide (k' = k)) as [->|Hne]; [by rewrite Hstored|].
    apply Hkeys. by rewrite add_other in Hk' by congruence. }
  assert (Hmem : resolveAccount F T home (Some a) ∈ V).
  { apply Hchar. exists k, (default ∅ (table s "cidr" !! k) ∪ {[a]}), stored, a.
    split; [by rewrite Htbl, add_truthy_lookup|].
    split; [done|]. split; [done|].
    split; [apply elem_of_union; right; by apply elem_of_singleton|].
    by apply account_tier_intro. }
  assert (HV : V ≠ ∅) by (intros E; rewrite E in Hmem; by apply not_elem_of_empty in Hmem).
  exists V. rewrite Hrun. cbn [result]. rewrite decide_False by done.
  split; [done|]. split.
  - intros tier Htier. by apply (account_tier_elim s F T home) in Htier as ->.
  - intros ->. exact Hmem.
Qed.

(** *** S3 ARNs *)

Lemma inspect_who_generic_absent key item same s :
  (∀ k, item = Some k → table s key !! k = None) →
  inspect_who_generic key item same s
  = mkOutcome (inr {["UNKNOWN"]}) (store (get_table key s)) [].
Proof.
  intros Habs. unfold inspect_who_generic.
  rewrite (bind_inr _ _ _ _ _ _ (get_table_eta s key)). cbn.
  destruct item as [k|]; [|reflexivity].
  by rewrite (Habs k eq_refl).
Qed.

Lemma inspect_who_arn_unfold who item s :
  category who = "arn" ∨ category who = "principal" →
  inspect_who who item s =
    (tiers <- inspect_who_arn (value who) (home_account item) item ;;
     ret (PySet tiers)) s.
Proof.
  intros Hc. unfold inspect_who.
  by rewrite decide_True by (destruct Hc as [E|E]; rewrite E; sets).
Qed.

Lemma inspect_who_arn_s3 v same item s :
  v ≠ "*" → tech (ARN v) = Some "s3" →
  result (inspect_who_arn v same item s)
  = result (inspect_who_generic "s3" (arn_name (ARN v)) same s).
Proof.
  intros Hv Htech. unfold inspect_who_arn.
  rewrite decide_False by done.
  rewrite (bind_result _ _ _ tt) by by destruct (error (ARN v)).
  rewrite decide_True by done. unfold inspect_who_s3.
  by destruct (error (ARN v)).
Qed.

Lemma bind_result_inr {A B} (m : M A) (g : A -> B) s a :
  result (m s) = inr a → result ((x <- m ;; ret (g x)) s) = inr (g a).
Proof. intros H. unfold bind. by rewrite H. Qed.

(** X7. An S3 ARN is resolved by its bucket name alone, never by its
    account number: a bucket that is not in the ['s3'] table resolves to
    UNKNOWN on any store and for any home account, and an indexed bucket
    resolves to the tiers of its recorded owners. *)
Theorem s3_arn_by_bucket_name (who : Who) (item : Item) (s : Store) :
  category who = "arn" ∨ category who = "principal" →
  value who ≠ "*" →
  tech (ARN (value who)) = Some "s3" →
  ((∀ n, arn_name (ARN (value who)) = Some n → table s "s3" !! n = None) →
   result (inspect_who who item s) = inr (PySet {["UNKNOWN"]})) ∧
  (∀ n accounts F T home,
     arn_name (ARN (value who)) = Some n →
     table s "s3" !! n = Some accounts →
     registry s F T →
     home_account item = Some home →
     ∃ tiers,
       result (inspect_who who item s) = inr (PySet tiers) ∧
       ∀ tier, tier ∈ tiers ↔
               ∃ a, a ∈ accounts ∧
                    result (inspect_who_account (Some a) (Some home) s) = inr tier).
Proof.
  intros Hc Hv Htech. rewrite (inspect_who_arn_unfold who item s Hc). split.
  - intros Habs. apply bind_result_inr.
    rewrite inspect_who_arn_s3 by done.
    by rewrite inspect_who_generic_absent.
  - intros n accounts F T home Hn Hacc Hreg Hhome. rewrite Hhome.
    eexists. split.
    + apply bind_result_inr. rewrite inspect_who_arn_s3 by done.
      rewrite (inspect_who_generic_run s F T home) by done.
      rewrite Hn, Hacc. reflexivity.
    + intros tier. rewrite elem_of_map. split.
      * intros (a & -> & Ha). exists a. split; [done|]. by apply account_tier_intro.
      * intros (a & Ha & Htier). exists a.
        split; [by apply (account_tier_elim s F T home)|done].
Qed.

(** *** Every recognised reference gets a tier *)

Lemma resolveAccount_four F T home a : resolveAccount F T home a ∈ four_tiers.
Proof.
  unfold resolveAccount, four_tiers.
  repeat (destruct (decide _); [sets|]).
  destruct (in_set a F); [sets|]. destruct (in_set a T); sets.
Qed.

Lemma tiers_of_owners F T home (accounts : gset string) :
  accounts ≠ ∅ →
  set_map (λ a, resolveAccount F T home (Some a)) accounts ≠ (∅ : gset string) ∧
  set_map (λ a, resolveAccount F T home (Some a)) accounts ⊆ four_tiers.
Proof.
  intros Hne. split.
  - apply set_choose_L in Hne as [a Ha]. intros E.
    assert (resolveAccount F T home (Some a) ∈
            (set_map (λ a, resolveAccount F T home (Some a)) accounts : gset string)) as Hin
      by (apply elem_of_map; eauto).
    rewrite E in Hin. by apply not_elem_of_empty in Hin.
  - intros tier Htier. apply elem_of_map in Htier as (a & -> & _).
    apply resolveAccount_four.
Qed.

Lemma unknown_good :
  ({["UNKNOWN"]} : gset string) ≠ ∅ ∧ ({["UNKNOWN"]} : gset string) ⊆ four_tiers.
Proof.
  split.
  - intros E. assert ("UNKNOWN" ∈ ({["UNKNOWN"]} : gset string)) as Hin
      by by apply elem_of_singleton.
    rewrite E in Hin. by apply not_elem_of_empty in Hin.
  - unfold four_tiers. sets.
Qed.

Lemma singleton_good F T home a :
  ({[resolveAccount F T home a]} : gset string) ≠ ∅ ∧
  ({[resolveAccount F T home a]} : gset string) ⊆ four_tiers.
Proof.
  split.
  - intros E. assert (resolveAccount F T home a ∈
                      ({[resolveAccount F T home a]} : gset string)) as Hin
      by by apply elem_of_singleton.
    rewrite E in Hin. by apply not_elem_of_empty in Hin.
  - intros tier Htier. apply elem_of_singleton in Htier as ->.
    apply resolveAccount_four.
Qed.

Lemma inspect_who_generic_good s F T home key item :
  registry s F T → owned s → key ≠ "ACCOUNTS" →
  ∃ tiers,
    result (inspect_who_generic key item (Some home) s) = inr tiers ∧
    tiers ≠ ∅ ∧ tiers ⊆ four_tiers.
Proof.
  intros Hreg Hown Hkey.
  rewrite (inspect_who_generic_run s F T home key item Hreg). cbn [result].
  eexists. split; [reflexivity|].
  destruct item as [k|]; [|apply unknown_good].
  destruct (table s key !! k) as [accounts|] eqn:Hk; [|apply unknown_good].
  apply tiers_of_owners. by apply (Hown key Hkey k).
Qed.

(** X8. With the registry in place, every stored key owned by some
    account and the network strings readable, a reference of any of the
    seven recognised categories resolves to a set that is not empty and
    holds only SAME, FRIENDLY, THIRDPARTY and UNKNOWN: it is never left
    without a tier and never answered with ERROR. *)
Theorem inspect_who_classifies (who : Who) (item : Item) (s : Store)
    (F T : gset string) (home : Account) :
  registry s F T →
  home_account item = Some home →
  networks_readable s who →
  owned s →
  category who ∈ ["arn"; "principal"; "account"; "userid"; "cidr"; "vpc"; "vpce"] →
  ∃ tiers,
    result (inspect_who who item s) = inr (PySet tiers) ∧
    tiers ≠ ∅ ∧ tiers ⊆ four_tiers.
Proof.
  intros Hreg Hhome Hnet Hown Hcat.
  destruct (decide (category who = "arn" ∨ category who = "principal")) as [Hc|Hc].
  { rewrite (inspect_who_arn_unfold who item s Hc), Hhome.
    destruct (decide (value who = "*")) as [Hv|Hv].
    - exists {["UNKNOWN"]}. split; [|apply unknown_good].
      apply bind_result_inr. unfold inspect_who_arn. by rewrite decide_True.
    - destruct (decide (tech (ARN (value who)) = Some "s3")) as [Hs3|Hs3].
      + destruct (inspect_who_generic_good s F T home "s3" (arn_name (ARN (value who)))
                    Hreg Hown) as (tiers & Hr & Hgood); [done|].
        exists tiers. split; [|done].
        apply bind_result_inr. by rewrite inspect_who_arn_s3.
      + destruct (inspect_who_arn_run s F T home item (value who) Hreg Hv)
          as (tiers & s' & Hrun & Hno).
        destruct (Hno Hs3) as [-> _].
        eexists. split; [apply bind_result_inr; by rewrite Hrun|].
        apply singleton_good. }
  unfold inspect_who. rewrite Hhome.
  rewrite decide_False by (intros H; apply Hc; sets).
  destruct (decide (category who = "account")).
  { rewrite (bind_pure _ _ _ _ (inspect_who_account_run s F T home _ Hreg)). cbn.
    eexists. split; [reflexivity|]. apply singleton_good. }
  destruct (decide (category who = "userid")).
  { destruct (inspect_who_generic_good s F T home "userid"
                (Some (split_colon_head (value who))) Hreg Hown) as (tiers & Hr & Hgood);
      [done|].
    exists tiers. split; [|done]. by apply bind_result_inr. }
  destruct (decide (category who = "cidr")) as [Hcidr|].
  { destruct (Hnet Hcidr) as ([query Hq] & Hkeys).
    destruct (inspect_who_cidr_run s F T home _ query Hreg Hq) as (V & Hrun & Hchar).
    { intros k [A HA]. exact (Hkeys k A HA). }
    eexists. split; [apply bind_result_inr; by rewrite Hrun|].
    split; [apply cidr_result_nonempty|].
    destruct (decide (V = ∅)); [apply unknown_good|].
    intros tier Htier. apply Hchar in Htier as (k & A & st & a & _ & _ & _ & _ & Hr).
    apply (account_tier_elim s F T home) in Hr as ->; [|done].
    apply resolveAccount_four. }
  destruct (decide (category who = "vpc")).
  { destruct (inspect_who_generic_good s F T home "vpc" (Some (value who)) Hreg Hown)
      as (tiers & Hr & Hgood); [done|].
    exists tiers. split; [|done]. by apply bind_result_inr. }
  destruct (decide (category who = "vpce")).
  { destruct (inspect_who_generic_good s F T home "vpce" (Some (value who)) Hreg Hown)
      as (tiers & Hr & Hgood); [done|].
    exists tiers. split; [|done]. by apply bind_result_inr. }
  exfalso. sets.
Qed.


(** *** What the build puts in the tables *)

Lemma frame_add_to {P : gmap string (gset string) -> Prop} t t' key value :
  t' ≠ t → preserves (λ s, P (table s t)) (add_to t' key value).
Proof. intros Hne s H. by rewrite add_to_table, decide_False. Qed.

Lemma frame_add_address {P : gmap string (gset string) -> Prop} t address k value :
  t ≠ "cidr" → preserves (λ s, P (table s t)) (add_address address k value).
Proof.
  intros Hne s H. pose proof (add_address_cases address k value s) as Hc.
  destruct (address !! k) as [key|]; rewrite Hc.
  - by rewrite add_to_table, decide_False.
  - by rewrite <- (get_table_view s "cidr" t).
Qed.

Lemma frame_reset_accounts {P : gmap string (gset string) -> Prop} t k :
  t ≠ "ACCOUNTS" → preserves (λ s, P (table s t)) (reset_accounts k).
Proof. intros Hne s H. by rewrite reset_accounts_table, decide_False. Qed.

Lemma frame_load_s3_buckets {P : gmap string (gset string) -> Prop} t :
  t ≠ "s3" → preserves (λ s, P (table s t)) _load_s3_buckets.
Proof. intros Hne. apply preserves_for_each. intros. by apply frame_add_to. Qed.

Lemma frame_load_userids {P : gmap string (gset string) -> Prop} t :
  t ≠ "userid" → preserves (λ s, P (table s t)) _load_userids.
Proof.
  intros Hne. unfold _load_userids.
  apply preserves_bind; [apply preserves_for_each; intros; by apply frame_add_to|].
  intros _. apply preserves_for_each; intros; by apply frame_add_to.
Qed.

Lemma frame_load_accounts {P : gmap string (gset string) -> Prop} t :
  t ≠ "ACCOUNTS" → preserves (λ s, P (table s t)) _load_accounts.
Proof.
  intros Hne. unfold _load_accounts.
  apply preserves_bind; [by apply frame_reset_accounts|intros _].
  apply preserves_bind; [apply preserves_for_each; intros; by apply frame_add_to|intros _].
  apply preserves_bind; [by apply frame_reset_accounts|intros _].
  apply preserves_for_each; intros; by apply frame_add_to.
Qed.

Lemma frame_load_rest {P : gmap string (gset string) -> Prop} t :
  t ≠ "vpc" → t ≠ "cidr" → t ≠ "vpce" →
  preserves (λ s, P (table s t))
    (_load_vpcs ;;; _load_vpces ;;; _load_natgateways ;;; _load_network_whitelist).
Proof.
  intros H1 H2 H3.
  apply preserves_bind.
  { apply preserves_for_each. intros item.
    apply preserves_bind; [by apply frame_add_to|intros _; by apply frame_add_to]. }
  intros _. apply preserves_bind; [apply preserves_for_each; intros; by apply frame_add_to|].
  intros _. apply preserves_bind.
  { apply preserves_for_each. intros gateway. apply preserves_for_each. intros address.
    apply preserves_bind; [by apply frame_add_address|intros _; by apply frame_add_address]. }
  intros _. apply preserves_for_each; intros; by apply frame_add_to.
Qed.

Lemma for_each_store_cons {A} (x : A) l body s :
  result (body x s) = inr tt →
  store (for_each (x :: l) body s) = store (for_each l body (store (body x s))).
Proof. intros H. cbn [for_each]. by rewrite (bind_store _ _ _ tt). Qed.

Lemma for_each_add_to_key {A} (t k : string) (f : A -> string) (l : list A) :
  k ≠ "" →
  ∀ s accounts,
    table s t !! k = Some accounts →
    table (store (for_each l (fun x => add_to t (Some k) (f x)) s)) t !! k
      = Some (accounts ∪ list_to_set (f <$> l)) ∧
    ∀ k', k' ≠ k →
      table (store (for_each l (fun x => add_to t (Some k) (f x)) s)) t !! k'
      = table s t !! k'.
Proof.
  intros Hk. induction l as [|x l IH]; intros s accounts Hacc.
  - cbn. split; [|done]. rewrite Hacc. f_equal. sets.
  - rewrite for_each_store_cons by apply add_to_result.
    assert (Hstep : table (store (add_to t (Some k) (f x) s)) t !! k
                    = Some (accounts ∪ {[f x]})).
    { rewrite add_to_table, decide_True by done.
      rewrite add_truthy_lookup by done. by rewrite Hacc. }
    destruct (IH _ _ Hstep) as [IH1 IH2]. split.
    + rewrite IH1. f_equal. cbn. sets.
    + intros k' Hk'. rewrite IH2 by done.
      rewrite add_to_table, decide_True by done.
      apply add_other. congruence.
Qed.

Lemma load_accounts_registry s :
  table (store (_load_accounts s)) "ACCOUNTS" !! "FRIENDLY"
    = Some (list_to_set
              (identifier <$> List.filter (fun a => negb (third_party a)) (db_accounts db))) ∧
  table (store (_load_accounts s)) "ACCOUNTS" !! "THIRDPARTY"
    = Some (list_to_set
              (identifier <$> List.filter (fun a => third_party a) (db_accounts db))).
Proof.
  unfold _load_accounts.
  rewrite (bind_store _ _ _ tt) by apply reset_accounts_result.
  rewrite (bind_store _ _ _ tt)
    by (apply for_each_result; intros; apply add_to_result).
  rewrite (bind_store _ _ _ tt) by apply reset_accounts_result.
  set (s1 := store (reset_accounts "FRIENDLY" s)).
  assert (H1 : table s1 "ACCOUNTS" !! "FRIENDLY" = Some ∅).
  { unfold s1. rewrite reset_accounts_table, decide_True by done.
    by rewrite lookup_insert_eq. }
  destruct (for_each_add_to_key "ACCOUNTS" "FRIENDLY" identifier
              (List.filter (fun a => negb (third_party a)) (db_accounts db))
              ltac:(done) s1 ∅ H1) as [H2 _].
  set (s2 := store (for_each _ _ s1)) in *.
  set (s3 := store (reset_accounts "THIRDPARTY" s2)).
  assert (H3 : table s3 "ACCOUNTS" !! "THIRDPARTY" = Some ∅).
  { unfold s3. rewrite reset_accounts_table, decide_True by done.
    by rewrite lookup_insert_eq. }
  assert (H3' : table s3 "ACCOUNTS" !! "FRIENDLY" = table s2 "ACCOUNTS" !! "FRIENDLY").
  { unfold s3. rewrite reset_accounts_table, decide_True by done.
    by rewrite lookup_insert_ne. }
  destruct (for_each_add_to_key "ACCOUNTS" "THIRDPARTY" identifier
              (List.filter (fun a => third_party a) (db_accounts db))
              ltac:(done) s3 ∅ H3) as [H4 H5].
  split.
  - rewrite H5 by done. rewrite H3', H2. f_equal. sets.
  - rewrite H4. f_equal. sets.
Qed.

(** X9. From the empty store [prep_for_audit] leaves a registry whose
    FRIENDLY set is exactly the identifiers of the accounts not flagged
    third party and whose THIRDPARTY set is exactly the identifiers of
    those flagged, also when the build stops at a NAT gateway address. *)
Theorem registry_after_build :
  registry (store (prep_for_audit ∅))
    (list_to_set
       (identifier <$> List.filter (fun a => negb (third_party a)) (db_accounts db)))
    (list_to_set
       (identifier <$> List.filter (fun a => third_party a) (db_accounts db))).
Proof.
  rewrite prep_for_audit_empty_store.
  set (s3 := store (_load_accounts _)).
  destruct (load_accounts_registry
              (store (_load_userids (store (_load_s3_buckets ∅))))) as [HF HT].
  fold s3 in HF, HT.
  set (s4 := store (_ s3)).
  assert (HF' : table s4 "ACCOUNTS" !! "FRIENDLY" = Some
            (list_to_set (identifier <$>
               List.filter (fun a => negb (third_party a)) (db_accounts db)))).
  { unfold s4. by apply (frame_load_rest (P := λ tbl, tbl !! "FRIENDLY" = Some _)). }
  assert (HT' : table s4 "ACCOUNTS" !! "THIRDPARTY" = Some
            (list_to_set (identifier <$>
               List.filter (fun a => third_party a) (db_accounts db)))).
  { unfold s4. by apply (frame_load_rest (P := λ tbl, tbl !! "THIRDPARTY" = Some _)). }
  unfold table in HF', HT'.
  destruct (s4 !! "ACCOUNTS") as [acc|] eqn:E; cbn in *.
  - by exists acc.
  - by rewrite lookup_empty in HF'.
Qed.

Lemma add_owner to key value k a :
  (∃ accounts, add to key value !! k = Some accounts ∧ a ∈ accounts) ↔
  (∃ accounts, to !! k = Some accounts ∧ a ∈ accounts) ∨
  (key = Some k ∧ k ≠ "" ∧ value = a).
Proof.
  destruct (decide (key = Some k)) as [->|Hne].
  - destruct (decide (k = "")) as [->|Hk].
    + rewrite add_falsy by done. split; [by left|]. by intros [?|(_ & ? & _)].
    + rewrite add_truthy_lookup by done. split.
      * intros (accounts & [= <-] & Ha). apply elem_of_union in Ha as [Ha|Ha].
        -- left. destruct (to !! k) as [A|]; [eauto|]. by apply not_elem_of_empty in Ha.
        -- right. apply elem_of_singleton in Ha. done.
      * intros [(A & HA & Ha)|(_ & _ & ->)]; eexists; (split; [reflexivity|]).
        -- apply elem_of_union. left. by rewrite HA.
        -- apply elem_of_union. right. by apply elem_of_singleton.
  - rewrite add_other by done. split; [by left|]. by intros [?|(? & _)].
Qed.

Lemma for_each_add_to_owners {A} (t : string) (key : A -> option string)
    (val : A -> string) (l : list A) k a :
  ∀ s,
    owner_of (store (for_each l (fun x => add_to t (key x) (val x)) s)) t k a ↔
    owner_of s t k a ∨ ∃ x, x ∈ l ∧ key x = Some k ∧ k ≠ "" ∧ val x = a.
Proof.
  induction l as [|x l IH]; intros s.
  - cbn. split; [by left|]. intros [?|(x & Hx & _)]; [done|]. by apply elem_of_nil in Hx.
  - rewrite for_each_store_cons by apply add_to_result.
    rewrite IH. unfold owner_of at 1.
    rewrite add_to_table, decide_True by done. rewrite add_owner.
    split.
    + intros [[?|(? & ? & ?)]|(y & Hy & ?)].
      * by left.
      * right. exists x. split; [left|done].
      * right. exists y. split; [by right|done].
    + intros [?|(y & Hy & Hkey & Hk & Hval)].
      * by left; left.
      * apply elem_of_cons in Hy as [->|Hy].
        -- left. by right.
        -- right. by exists y.
Qed.

Lemma related_items_elem item technology_name :
  item ∈ _load_related_items technology_name ↔
  item ∈ db_items db ∧ technology item = technology_name.
Proof.
  unfold _load_related_items. rewrite !list_elem_of_In, filter_In.
  by rewrite String.eqb_eq.
Qed.

Lemma owner_of_empty t k a : ¬ owner_of ∅ t k a.
Proof. intros (A & HA & _). unfold table in HA. by rewrite !lookup_empty in HA. Qed.

(** X10. From the empty store [prep_for_audit] records the account [a]
    as an owner of the bucket name [k] exactly when some stored S3 item
    has the non-empty name [k] and the account identifier [a]. *)
Theorem s3_table_after_build (k a : string) :
  owner_of (store (prep_for_audit ∅)) "s3" k a ↔
  ∃ item, item ∈ db_items db ∧ technology item = "s3" ∧
          item_name item = Some k ∧ k ≠ "" ∧ item_account_identifier item = a.
Proof.
  rewrite prep_for_audit_empty_store.
  assert (Hframe : table (store ((_load_vpcs ;;; _load_vpces ;;; _load_natgateways ;;;
                                  _load_network_whitelist)
                     (store (_load_accounts (store (_load_userids
                        (store (_load_s3_buckets ∅))))))))
                     "s3" = table (store (_load_s3_buckets ∅)) "s3").
  { apply (frame_load_rest (P := λ tbl, tbl = _)); [done..|].
    apply (frame_load_accounts (P := λ tbl, tbl = _)); [done|].
    by apply (frame_load_userids (P := λ tbl, tbl = _)). }
  unfold owner_of at 1. rewrite Hframe.
  change (owner_of (store (_load_s3_buckets ∅)) "s3" k a ↔
          ∃ item, item ∈ db_items db ∧ technology item = "s3" ∧
                  item_name item = Some k ∧ k ≠ "" ∧ item_account_identifier item = a).
  unfold _load_s3_buckets. rewrite for_each_add_to_owners. split.
  - intros [H|(item & Hitem & ?)]; [by apply owner_of_empty in H|].
    apply related_items_elem in Hitem as [? ?]. by exists item.
  - intros (item & ? & ? & ?). right. exists item.
    split; [by apply related_items_elem|done].
Qed.

(** X11. From the empty store [prep_for_audit] records the account [a]
    as an owner of the user id [k] exactly when some stored IAM user has
    [k] as its ['UserId'], or some stored IAM role has [k] as its
    ['RoleId'], with [k] non-empty and [a] the item's account
    identifier. *)
Theorem userid_table_after_build (k a : string) :
  owner_of (store (prep_for_audit ∅)) "userid" k a ↔
  ∃ item, item ∈ db_items db ∧
          (technology item = "iamuser" ∧ latest_config item !! "UserId" = Some k ∨
           technology item = "iamrole" ∧ latest_config item !! "RoleId" = Some k) ∧
          k ≠ "" ∧ item_account_identifier item = a.
Proof.
  rewrite prep_for_audit_empty_store.
  assert (Hframe : table (store ((_load_vpcs ;;; _load_vpces ;;; _load_natgateways ;;;
                                  _load_network_whitelist)
                     (store (_load_accounts (store (_load_userids
                        (store (_load_s3_buckets ∅))))))))
                     "userid" = table (store (_load_userids (store (_load_s3_buckets ∅))))
                                  "userid").
  { apply (frame_load_rest (P := λ tbl, tbl = _)); [done..|].
    by apply (frame_load_accounts (P := λ tbl, tbl = _)). }
  unfold owner_of at 1. rewrite Hframe.
  change (owner_of (store (_load_userids (store (_load_s3_buckets ∅)))) "userid" k a ↔
          ∃ item, item ∈ db_items db ∧
            (technology item = "iamuser" ∧ latest_config item !! "UserId" = Some k ∨
             technology item = "iamrole" ∧ latest_config item !! "RoleId" = Some k) ∧
            k ≠ "" ∧ item_account_identifier item = a).
  unfold _load_userids.
  rewrite (bind_store _ _ _ tt) by (apply for_each_result; intros; apply add_to_result).
  rewrite !for_each_add_to_owners.
  assert (Hs3 : ¬ owner_of (store (_load_s3_buckets ∅)) "userid" k a).
  { intros (A & HA & _).
    assert (Ht : table (store (_load_s3_buckets ∅)) "userid" = ∅).
    { apply (frame_load_s3_buckets (P := λ tbl, tbl = ∅)); [done|].
      unfold table. by rewrite lookup_empty. }
    rewrite Ht in HA. by rewrite lookup_empty in HA. }
  split.
  - intros [[H|(item & Hitem & ? & ? & ?)]|(item & Hitem & ? & ? & ?)]; [done|..];
      apply related_items_elem in Hitem as [? ?]; exists item; auto.
  - intros (item & ? & [[? ?]|[? ?]] & ? & ?).
    + left. right. exists item. split; [by apply related_items_elem|done].
    + right. exists item. split; [by apply related_items_elem|done].
Qed.


(** *** When the build completes *)

Lemma add_address_result address k value s :
  result (add_address address k value s)
  = match address !! k with Some _ => inr tt | None => inl KeyError end.
Proof.
  unfold add_address, getitem, bind. rewrite get_table_result. cbn.
  by destruct (address !! k).
Qed.

Lemma for_each_result_in {A} (l : list A) body :
  (∀ x s, x ∈ l → result (body x s) = inr tt) →
  ∀ s, result (for_each l body s) = inr tt.
Proof.
  induction l as [|x l IH]; intros Hb s; cbn; [done|].
  rewrite (bind_result _ _ _ tt) by (apply Hb; left).
  apply IH. intros y s' Hy. apply Hb. by right.
Qed.

Lemma for_each_raises {A} (l : list A) body e x0 :
  (∀ x s, result (body x s) = inr tt ∨ result (body x s) = inl e) →
  x0 ∈ l → (∀ s, result (body x0 s) = inl e) →
  ∀ s, result (for_each l body s) = inl e.
Proof.
  intros Hb Hx0 Hraise. induction l as [|x l IH]; intros s.
  - by apply elem_of_nil in Hx0.
  - cbn [for_each]. destruct (Hb x s) as [Hok|Herr].
    + rewrite (bind_result _ _ _ tt) by done.
      apply elem_of_cons in Hx0 as [->|Hx0]; [by rewrite Hraise in Hok|].
      by apply IH.
    + unfold bind. by rewrite Herr.
Qed.

Lemma for_each_dichotomy {A} (l : list A) body e :
  (∀ x s, result (body x s) = inr tt ∨ result (body x s) = inl e) →
  ∀ s, result (for_each l body s) = inr tt ∨ result (for_each l body s) = inl e.
Proof.
  intros Hb. induction l as [|x l IH]; intros s; cbn [for_each]; [by left|].
  destruct (Hb x s) as [Hok|Herr].
  - rewrite (bind_result _ _ _ tt) by done. apply IH.
  - right. unfold bind. by rewrite Herr.
Qed.

(** Both fields of one NAT gateway address. *)
Lemma address_pair_result address value s :
  result ((add_address address "public_ip" value ;;;
           add_address address "private_ip" value) s)
  = if bool_decide (is_Some (address !! "public_ip") ∧ is_Some (address !! "private_ip"))
    then inr tt else inl KeyError.
Proof.
  unfold bind at 1. rewrite add_address_result.
  destruct (address !! "public_ip") as [pub|] eqn:Hpub; cbn [result store calls].
  - rewrite add_address_result.
    destruct (address !! "private_ip") as [priv|] eqn:Hpriv.
    + by rewrite bool_decide_true by (split; eauto).
    + rewrite bool_decide_false; [done|]. by intros [_ [? ?]].
  - rewrite bool_decide_false; [done|]. by intros [[? ?] _].
Qed.

Lemma prep_for_audit_result :
  ∃ s, result (prep_for_audit ∅) = result (_load_natgateways s).
Proof.
  unfold prep_for_audit. rewrite decide_True by done.
  rewrite (bind_result _ _ _ tt) by apply load_s3_buckets_result.
  rewrite (bind_result _ _ _ tt) by apply load_userids_result.
  rewrite (bind_result _ _ _ tt) by apply load_accounts_result.
  rewrite (bind_result _ _ _ tt).
  2:{ apply for_each_result. intros item s.
      rewrite (bind_result _ _ _ tt) by apply add_to_result. apply add_to_result. }
  rewrite (bind_result _ _ _ tt) by (apply for_each_result; intros; apply add_to_result).
  eexists. unfold bind at 1.
  destruct (result (_load_natgateways _)) as [e|[]] eqn:E; cbn [result]; [done|].
  rewrite E. unfold _load_network_whitelist.
  apply for_each_result. intros. apply add_to_result.
Qed.

Lemma prep_for_audit_nonempty s :
  s ≠ ∅ → prep_for_audit s = mkOutcome (inr tt) s [].
Proof. intros Hne. unfold prep_for_audit. by rewrite decide_False. Qed.

(** X12. From the empty store [prep_for_audit] completes when every
    address of every stored NAT gateway has both ['public_ip'] and
    ['private_ip'].  When some address lacks one of them it raises
    [KeyError]; the store it leaves is not empty, so a further
    [prep_for_audit] returns at once and the build is never finished. *)
Theorem prep_for_audit_completion :
  (addresses_complete → result (prep_for_audit ∅) = inr tt) ∧
  (∀ gateway address,
     gateway ∈ _load_related_items "natgateway" →
     address ∈ default [] (nat_gateway_addresses gateway) →
     address !! "public_ip" = None ∨ address !! "private_ip" = None →
     result (prep_for_audit ∅) = inl KeyError ∧
     prep_for_audit (store (prep_for_audit ∅))
       = mkOutcome (inr tt) (store (prep_for_audit ∅)) []).
Proof.
  destruct prep_for_audit_result as [s0 Hres]. rewrite Hres. split.
  - intros Hall. unfold _load_natgateways.
    apply for_each_result_in. intros gateway s Hg.
    apply for_each_result_in. intros address s' Ha.
    rewrite address_pair_result. by rewrite bool_decide_true by by apply (Hall gateway).
  - intros gateway address Hg Ha Hmiss. split.
    + unfold _load_natgateways.
      assert (Hpair : ∀ value x s,
                result ((add_address x "public_ip" value ;;;
                         add_address x "private_ip" value) s) = inr tt
                ∨ result ((add_address x "public_ip" value ;;;
                           add_address x "private_ip" value) s) = inl KeyError).
      { intros value x s. rewrite address_pair_result. destruct (bool_decide _); auto. }
      apply (for_each_raises _ _ KeyError gateway); [|done|].
      { intros g s. apply for_each_dichotomy. apply Hpair. }
      intros s. apply (for_each_raises _ _ KeyError address); [apply Hpair|done|].
      intros s'. rewrite address_pair_result. rewrite bool_decide_false; [done|].
        intros [[? Hp] [? Hq]]. destruct Hmiss; congruence.
    + apply prep_for_audit_nonempty. intros Hempty.
      destruct (prep_for_audit_leaves_accounts ∅ eq_refl) as [x Hx].
      rewrite Hempty, lookup_empty in Hx. done.
Qed.

(** *** Items without a policy *)

Lemma flat_map_nil {A B} (f : A -> list B) (l : list A) :
  (∀ x, x ∈ l → f x = []) → flat_map f l = [].
Proof.
  induction l as [|x l IH]; intros H; cbn; [done|].
  rewrite (H x) by left. apply IH. intros y Hy. apply H. by right.
Qed.

Lemma load_policies_nil item :
  (∀ key docs, key ∈ policy_keys → dpath_values (config item) key = Some docs →
               Forall (λ d, truthy d = false) docs) →
  load_policies item = [].
Proof.
  intros H. unfold load_policies. apply flat_map_nil. intros key Hkey.
  destruct (dpath_values (config item) key) as [docs|] eqn:E; [|done].
  apply flat_map_nil. intros d Hd.
  pose proof (H key docs Hkey E) as Hall.
  rewrite Forall_forall in Hall. by rewrite (Hall d Hd).
Qed.

(** X13. An item with no policy document (every configured key is
    missing, or holds only empty values) goes through the five checks
    without a finding, an exception or a change to the store, whatever the
    store holds. *)
Theorem no_policy_no_finding (item : Item) (s : Store) :
  (∀ key docs, key ∈ policy_keys → dpath_values (config item) key = Some docs →
               Forall (λ d, truthy d = false) docs) →
  check_internet_accessible item s = mkOutcome (inr tt) s [] ∧
  check_friendly_cross_account item s = mkOutcome (inr tt) s [] ∧
  check_thirdparty_cross_account item s = mkOutcome (inr tt) s [] ∧
  check_unknown_cross_account item s = mkOutcome (inr tt) s [] ∧
  check_root_cross_account item s = mkOutcome (inr tt) s [].
Proof.
  intros H. pose proof (load_policies_nil item H) as Hnil.
  unfold check_internet_accessible, check_friendly_cross_account,
    check_thirdparty_cross_account, check_unknown_cross_account,
    check_root_cross_account.
  rewrite Hnil. done.
Qed.

(** *** Internet-accessible policies *)



(** X15. References of an internet-accessible policy are not looked at
    by the unknown cross-account check: when every policy of the item is
    internet-accessible the check reports nothing, raises nothing and
    leaves the store as it was, on any store. *)
Theorem unknown_check_skips_internet_accessible (item : Item) (s : Store) :
  (∀ policy, policy ∈ load_policies item → is_internet_accessible policy = true) →
  check_unknown_cross_account item s = mkOutcome (inr tt) s [].
Proof.
  unfold check_unknown_cross_account.
  induction (load_policies item) as [|policy l IH]; intros H; cbn; [done|].
  rewrite (H policy) by left. rewrite bind_ret. apply IH.
  intros p Hp. apply H. by right.
Qed.

(** *** Resolving on a store that is not built *)

(** X16. On a store without the registry [inspect_who_account] answers
    only for the sentinel and the home account.  Without a home account
    any other identifier raises [AttributeError]; with one, a missing
    FRIENDLY set raises [KeyError], and a missing THIRDPARTY set raises
    [KeyError] unless the identifier is in the FRIENDLY set. *)
Theorem inspect_who_account_errors (a : option string) (home : Account) (s : Store) :
  a ≠ Some "000000000000" →
  inspect_who_account a None s = mkOutcome (inl AttributeError) s [] ∧
  (a ≠ Some (identifier home) →
   table s "ACCOUNTS" !! "FRIENDLY" = None →
   result (inspect_who_account a (Some home) s) = inl KeyError) ∧
  (a ≠ Some (identifier home) →
   ∀ F, table s "ACCOUNTS" !! "FRIENDLY" = Some F →
        table s "ACCOUNTS" !! "THIRDPARTY" = None →
        result (inspect_who_account a (Some home) s)
        = if in_set a F then inr "FRIENDLY" else inl KeyError).
Proof.
  intros Ha. unfold inspect_who_account.
  rewrite decide_False by done. split; [done|].
  rewrite decide_False by done || idtac.
  split.
  - intros Hh HF. rewrite decide_False by done.
    rewrite (bind_inr _ _ _ _ _ _ (get_table_eta s "ACCOUNTS")). cbn [result].
    unfold getitem. rewrite HF. reflexivity.
  - intros Hh F HF HT. rewrite decide_False by done.
    rewrite (bind_inr _ _ _ _ _ _ (get_table_eta s "ACCOUNTS")). cbn [result].
    rewrite (bind_getitem _ _ _ _ _ HF).
    destruct (in_set a F); [reflexivity|].
    rewrite (bind_inr _ _ _ _ _ _ (get_table_eta _ "ACCOUNTS")). cbn [result].
    rewrite <- (get_table_view s "ACCOUNTS" "ACCOUNTS").
    unfold getitem. rewrite HT. reflexivity.
Qed.

Lemma for_fold_nil {A B} (body : B -> A -> M B) acc s :
  for_fold [] body acc s = mkOutcome (inr acc) s [].
Proof. reflexivity. Qed.

Lemma inspect_who_cidr_empty cidr same s :
  table s "cidr" = ∅ →
  inspect_who_cidr cidr same s
  = mkOutcome (inr {["UNKNOWN"]}) (store (get_table "cidr" s)) [].
Proof.
  intros Ht. unfold inspect_who_cidr.
  rewrite (bind_inr _ _ _ _ _ _ (get_table_eta s "cidr")). rewrite Ht.
  rewrite map_to_list_empty. cbn [fmap list_fmap].
  rewrite (bind_pure _ _ _ _ (for_fold_nil _ _ _)).
  by rewrite decide_True.
Qed.

(** X17. A lookup before the build prevents the build.  On the empty
    store a [userid], [cidr], [vpc] or [vpce] reference resolves to
    UNKNOWN and leaves the store holding one empty table, named after the
    category; [prep_for_audit] then finds the store non-empty and loads
    nothing, so the store has no registry. *)
Theorem lookup_before_build_blocks_build (who : Who) (item : Item) :
  category who ∈ ["userid"; "cidr"; "vpc"; "vpce"] →
  inspect_who who item ∅
    = mkOutcome (inr (PySet {["UNKNOWN"]})) {[category who := ∅]} [] ∧
  prep_for_audit (store (inspect_who who item ∅))
    = mkOutcome (inr tt) (store (inspect_who who item ∅)) [] ∧
  ¬ ∃ F T, registry (store (inspect_who who item ∅)) F T.
Proof.
  intros Hcat.
  assert (Htab : ∀ t, table (∅ : Store) t = ∅)
    by (intros t; unfold table; by rewrite lookup_empty).
  assert (Hst : ∀ t, store (get_table t ∅) = {[t := ∅]}).
  { intros t. unfold get_table. rewrite lookup_empty. cbn. apply insert_empty. }
  assert (Hrun : inspect_who who item ∅
                 = mkOutcome (inr (PySet {["UNKNOWN"]})) {[category who := ∅]} []).
  { assert (Habs : ∀ key k same,
              inspect_who_generic key (Some k) same ∅
              = mkOutcome (inr {["UNKNOWN"]}) {[key := ∅]} []).
    { intros key k same. rewrite inspect_who_generic_absent, Hst; [done|].
      intros k' _. by rewrite Htab, lookup_empty. }
    assert (Hcases : category who = "userid" ∨ category who = "cidr" ∨
                     category who = "vpc" ∨ category who = "vpce") by sets.
    unfold inspect_who, inspect_who_userid, inspect_who_vpc, inspect_who_vpce.
    destruct Hcases as [E|[E|[E|E]]]; rewrite E.
    - rewrite decide_False by sets. rewrite decide_False by done.
      rewrite decide_True by done.
      by rewrite (bind_inr _ _ _ _ _ _ (Habs _ _ _)).
    - rewrite decide_False by sets. do 2 rewrite decide_False by done.
      rewrite decide_True by done.
      rewrite (bind_inr _ _ _ _ _ _ (inspect_who_cidr_empty _ _ ∅ (Htab _))).
      by rewrite Hst.
    - rewrite decide_False by sets. do 3 rewrite decide_False by done.
      rewrite decide_True by done.
      by rewrite (bind_inr _ _ _ _ _ _ (Habs _ _ _)).
    - rewrite decide_False by sets. do 4 rewrite decide_False by done.
      rewrite decide_True by done.
      by rewrite (bind_inr _ _ _ _ _ _ (Habs _ _ _)). }
  rewrite Hrun. cbn [store]. split; [done|]. split.
  - apply prep_for_audit_nonempty. intros E.
    apply (f_equal (λ m : Store, m !! category who)) in E.
    by rewrite lookup_singleton_eq, lookup_empty in E.
  - intros (F & T & acc & Hacc & _).
    rewrite lookup_singleton_ne in Hacc; [done|].
    intros E. rewrite E in Hcat. sets.
Qed.

(** *** The SNS auditor and the resource-policy checks *)

(** X18. For the SNS auditor, whose policy key is ['policy'], with
    [dpath] giving the value under that key: a topic that
    [check_snstopicpolicy_empty] reports (no ['policy'] entry, or an empty
    mapping) has no policy for the other checks, which all stay silent on
    it. *)
Theorem empty_sns_policy_only_finding (snsitem : Item) (s : Store) :
  policy_keys = ["policy"] →
  dpath_values (config snsitem) "policy" = (λ v, [v]) <$> config snsitem !! "policy" →
  config snsitem !! "policy" = None ∨ config snsitem !! "policy" = Some (JDict []) →
  calls (check_snstopicpolicy_empty snsitem s)
    = [add_issue 1 "SNS Topic Policy is empty" snsitem None] ∧
  calls (check_internet_accessible snsitem s) = [] ∧
  calls (check_friendly_cross_account snsitem s) = [] ∧
  calls (check_thirdparty_cross_account snsitem s) = [] ∧
  calls (check_unknown_cross_account snsitem s) = [] ∧
  calls (check_root_cross_account snsitem s) = [].
Proof.
  intros Hkeys Hdpath Hempty.
  assert (Hnil : load_policies snsitem = []).
  { apply load_policies_nil. intros key docs Hkey Hdocs.
    rewrite Hkeys in Hkey. apply list_elem_of_singleton in Hkey as ->.
    rewrite Hdpath in Hdocs.
    destruct Hempty as [E|E]; rewrite E in Hdocs; [done|].
    injection Hdocs as <-. by repeat constructor. }
  split.
  - unfold check_snstopicpolicy_empty. by destruct Hempty as [-> | ->].
  - unfold check_internet_accessible, check_friendly_cross_account,
      check_thirdparty_cross_account, check_unknown_cross_account,
      check_root_cross_account.
    by rewrite Hnil.
Qed.


End Auditor.

Arguments parse_network {Net} IPNetwork s.
Arguments cidr_entry {Net} IPNetwork net_in cidr same values str_cidr.
Arguments inspect_who_cidr {Net} IPNetwork net_in cidr same.
Arguments inspect_who db ARN {Net} IPNetwork net_in who item.
Arguments friendly_who db ARN {Net} IPNetwork net_in item who.
Arguments thirdparty_who db ARN {Net} IPNetwork net_in item who.
Arguments unknown_who db ARN {Net} IPNetwork net_in item who.
Arguments root_who db ARN {Net} IPNetwork net_in item statement who.
Arguments check_friendly_cross_account db ARN {Net} IPNetwork net_in dpath_values Policy
  policy_keys item.
Arguments check_thirdparty_cross_account db ARN {Net} IPNetwork net_in dpath_values Policy
  policy_keys item.
Arguments check_unknown_cross_account db ARN {Net} IPNetwork net_in dpath_values Policy
  policy_keys item.
Arguments check_root_cross_account db ARN {Net} IPNetwork net_in dpath_values Policy
  policy_keys item.

(** ** The auditor on the sample datastore *)

Lemma sample_store_built : store (prep_for_audit sample_db ∅) = sample_store.
Proof. vm_compute. reflexivity. Qed.

Lemma sample_registry : registry sample_store sample_friendly sample_thirdparty.
Proof. eexists. split; [reflexivity|]. split; reflexivity. Qed.

(** A role of a friendly account is reported by the friendly check and
    by no other. *)
Example friendly_role_scenario :
  let policy := mkPolicy false [mkWho "principal" "arn:aws:iam::222222222222:role/foo"] [] in
  calls (check_friendly_cross_account sample_db sample_ARN sample_IPNetwork sample_net_in
           sample_dpath_values (parsed_as policy) ["Policy"] sample_item sample_store)
    = [add_issue 0 "Friendly Cross Account Access" sample_item
         (Some "Access provided to principal:arn:aws:iam::222222222222:role/foo.")] ∧
  calls (check_thirdparty_cross_account sample_db sample_ARN sample_IPNetwork sample_net_in
           sample_dpath_values (parsed_as policy) ["Policy"] sample_item sample_store) = [] ∧
  calls (check_unknown_cross_account sample_db sample_ARN sample_IPNetwork sample_net_in
           sample_dpath_values (parsed_as policy) ["Policy"] sample_item sample_store) = [].
Proof. repeat split; vm_compute; reflexivity. Qed.

(** Resolving before the store is built: the registry is missing and the
    lookup of the FRIENDLY set raises. *)
Example unbuilt_store_raises :
  result (inspect_who_account (Some "222222222222") (Some sample_home) ∅) = inl KeyError.
Proof. reflexivity. Qed.

(** A network string [ipaddr] rejects raises as soon as a stored network
    is compared with it. *)
Example unreadable_network_raises :
  result (inspect_who_cidr sample_IPNetwork sample_net_in "not-a-network"
            (Some sample_home) sample_store) = inl ValueError.
Proof. vm_compute. reflexivity. Qed.

Lemma add_additive_witness :
  add {["vpc-1" := {["111111111111"]}]} (Some "") "222222222222"
    = {["vpc-1" := {["111111111111"]}]}.
Proof.
  apply (proj1 (add_additive {["vpc-1" := {["111111111111"]}]} (Some "") "222222222222")).
  right. reflexivity.
Defined.

Lemma inspect_who_account_precedence_witness :
  inspect_who_account (Some "222222222222") (Some sample_home) sample_store
    = mkOutcome (inr "FRIENDLY") sample_store [].
Proof.
  destruct (inspect_who_account_precedence sample_store sample_home "222222222222")
    as (_ & _ & H).
  rewrite (H sample_friendly sample_thirdparty sample_registry);
    [reflexivity|discriminate|discriminate].
Defined.

Lemma inspect_who_cidr_union_witness :
  ∃ values,
    result (inspect_who_cidr sample_IPNetwork sample_net_in "10.1.0.0/16"
              (Some sample_home) sample_store) = inr values ∧
    values = {["SAME"]}.
Proof.
  destruct (inspect_who_cidr_union _ sample_IPNetwork sample_net_in sample_store
              sample_friendly sample_thirdparty sample_home "10.1.0.0/16"
              (mkNet4 167837696 167903231))
    as (values & Hr & _ & _ & _).
  - exact sample_registry.
  - reflexivity.
  - change (map_Forall (λ k accounts, is_Some (sample_IPNetwork k) ∧ accounts ≠ ∅)
              (table sample_store "cidr")).
    compute_done.
  - exists values. split; [exact Hr|].
    vm_compute in Hr. injection Hr as <-. vm_compute. reflexivity.
Defined.

Lemma check_unknown_cross_account_findings_witness :
  List.filter is_unknown_issue
    (calls (check_unknown_cross_account sample_db sample_ARN sample_IPNetwork
              sample_net_in sample_dpath_values (parsed_as policy_mixed) ["Policy"]
              sample_item sample_store))
  = [add_issue 10 "Unknown Cross Account Access" sample_item
       (Some "Access provided to principal:arn:aws:iam::999999999999:role/x.");
     add_issue 10 "Unknown Cross Account Access" sample_item
       (Some "Access provided to cidr:8.8.8.8/32.")].
Proof.
  destruct (check_unknown_cross_account_findings sample_db sample_ARN _ sample_IPNetwork
              sample_net_in sample_dpath_values (parsed_as policy_mixed) ["Policy"]
              sample_item sample_store sample_friendly sample_thirdparty sample_home)
    as [_ Hc].
  - exact sample_registry.
  - reflexivity.
  - intros policy who Hp _. revert who. apply Forall_forall.
    revert policy Hp. apply Forall_forall. compute_done.
  - rewrite Hc. vm_compute. reflexivity.
Defined.

(** A service name met as a condition value is an [arn] reference: its
    ARN has the service field set, and the unknown cross-account check
    reports it all the same. *)
Lemma service_condition_flagged :
  service (sample_ARN "lambda.amazonaws.com") = true ∧
  calls (check_unknown_cross_account sample_db sample_ARN sample_IPNetwork
           sample_net_in sample_dpath_values (parsed_as policy_service_condition)
           ["Policy"] sample_item sample_store)
  = [add_issue 10 "Unknown Cross Account Access" sample_item
       (Some "Access provided to arn:lambda.amazonaws.com.")].
Proof. split; vm_compute; reflexivity. Qed.

Lemma unrecognized_category_error_witness :
  unknown_who sample_db sample_ARN sample_IPNetwork sample_net_in sample_item
    (mkWho "tag" "team-a") sample_store
  = mkOutcome (inr tt) sample_store [].
Proof.
  destruct (unrecognized_category_error sample_db sample_ARN _ sample_IPNetwork
              sample_net_in (mkWho "tag" "team-a") sample_item sample_store)
    as (_ & _ & _ & H & _).
  - compute_done.
  - exact H.
Defined.

(** On a category it does not know, [inspect_who] returns the string
    ["ERROR"], which is not the set holding ERROR; and an item whose only
    reference has such a category goes through all four cross-account
    checks without a single finding. *)
Lemma odd_category_string_and_silence :
  result (inspect_who sample_db sample_ARN sample_IPNetwork sample_net_in
            (mkWho "tag" "team-a") sample_item sample_store)
    = inr (PyStr "ERROR") ∧
  result (inspect_who sample_db sample_ARN sample_IPNetwork sample_net_in
            (mkWho "tag" "team-a") sample_item sample_store)
    ≠ inr (PySet {["ERROR"]}) ∧
  check_friendly_cross_account sample_db sample_ARN sample_IPNetwork sample_net_in
    sample_dpath_values (parsed_as policy_odd_category) ["Policy"] sample_item sample_store
    = mkOutcome (inr tt) sample_store [] ∧
  check_thirdparty_cross_account sample_db sample_ARN sample_IPNetwork sample_net_in
    sample_dpath_values (parsed_as policy_odd_category) ["Policy"] sample_item sample_store
    = mkOutcome (inr tt) sample_store [] ∧
  check_unknown_cross_account sample_db sample_ARN sample_IPNetwork sample_net_in
    sample_dpath_values (parsed_as policy_odd_category) ["Policy"] sample_item sample_store
    = mkOutcome (inr tt) sample_store [] ∧
  check_root_cross_account sample_db sample_ARN sample_IPNetwork sample_net_in
    sample_dpath_values (parsed_as policy_odd_category) ["Policy"] sample_item sample_store
    = mkOutcome (inr tt) sample_store [].
Proof.
  split; [vm_compute; reflexivity|].
  split; [vm_compute; discriminate|].
  repeat split; vm_compute; reflexivity.
Qed.

Lemma prep_for_audit_once_witness :
  prep_for_audit sample_db sample_store = mkOutcome (inr tt) sample_store [].
Proof.
  apply (proj1 (prep_for_audit_once sample_db sample_store)).
  exists "ACCOUNTS". eexists. split; [reflexivity|]. compute_done.
Defined.

Lemma unparsable_arn_reported_witness :
  calls (inspect_who sample_db sample_ARN sample_IPNetwork sample_net_in
           (mkWho "principal" "not-an-arn") sample_item sample_store)
  = [add_issue 3 "Auditor could not parse ARN" sample_item (Some "not-an-arn")].
Proof.
  apply (unparsable_arn_reported sample_db sample_ARN _ sample_IPNetwork sample_net_in
           (mkWho "principal" "not-an-arn") sample_item sample_store
           sample_friendly sample_thirdparty sample_home).
  - right. reflexivity.
  - discriminate.
  - reflexivity.
  - exact sample_registry.
  - reflexivity.
Defined.

Lemma check_root_cross_account_findings_witness :
  List.filter is_root_finding
    (calls (check_root_cross_account sample_db sample_ARN sample_IPNetwork
              sample_net_in sample_dpath_values (parsed_as policy_root) ["Policy"]
              sample_item sample_store))
  = [root_access_finding sample_item (sample_ARN "arn:aws:iam::333333333333:root")
       {["sns:Publish"]}].
Proof.
  destruct (check_root_cross_account_findings sample_db sample_ARN _ sample_IPNetwork
              sample_net_in sample_dpath_values (parsed_as policy_root) ["Policy"]
              sample_item sample_store sample_friendly sample_thirdparty sample_home)
    as [_ Hc].
  - exact sample_registry.
  - reflexivity.
  - rewrite Hc. vm_compute. reflexivity.
Defined.

Lemma resolution_creates_only_empty_tables_witness :
  store (inspect_who sample_db sample_ARN sample_IPNetwork sample_net_in
           (mkWho "vpce" "vpce-1") sample_item sample_full_store)
  = sample_full_store.
Proof.
  apply (proj2 (resolution_creates_only_empty_tables sample_db sample_ARN _
                  sample_IPNetwork sample_net_in (mkWho "vpce" "vpce-1") sample_item
                  "vpce" None "10.0.0.0/8" None None sample_full_store)).
  apply Forall_forall. compute_done.
Defined.

(** The store [prep_for_audit] built has no ["vpce"] table, since no VPC
    endpoint is stored; resolving a [vpce] reference creates one. *)
Lemma lookup_creates_table :
  sample_store !! "vpce" = None ∧
  store (inspect_who sample_db sample_ARN sample_IPNetwork sample_net_in
           (mkWho "vpce" "vpce-1") sample_item sample_store) !! "vpce" = Some ∅ ∧
  store (inspect_who sample_db sample_ARN sample_IPNetwork sample_net_in
           (mkWho "vpce" "vpce-1") sample_item sample_store) ≠ sample_store.
Proof.
  split; [reflexivity|]. split; [vm_compute; reflexivity|].
  intros H. apply (f_equal (λ s : Store, s !! "vpce")) in H.
  vm_compute in H. discriminate.
Qed.

Lemma check_snstopicpolicy_empty_spec_witness :
  check_snstopicpolicy_empty (mkItem "home" ∅) sample_store
  = mkOutcome (inr tt) sample_store
      [add_issue 1 "SNS Topic Policy is empty" (mkItem "home" ∅) None].
Proof.
  apply (proj1 (check_snstopicpolicy_empty_spec (mkItem "home" ∅) sample_store)).
  left. reflexivity.
Defined.

(** ** The further properties on the sample datastore *)

Lemma sample_owned : owned sample_store.
Proof. rewrite <- sample_store_built. apply prep_for_audit_builds. Qed.

Lemma sample_cidr_readable :
  ∀ k, is_Some (table sample_store "cidr" !! k) → is_Some (sample_IPNetwork k).
Proof.
  intros k [A HA]. revert k A HA.
  change (map_Forall (λ k _, is_Some (sample_IPNetwork k)) (table sample_store "cidr")).
  compute_done.
Qed.

Lemma check_friendly_cross_account_findings_witness :
  List.filter is_friendly_issue
    (calls (check_friendly_cross_account sample_db sample_ARN sample_IPNetwork
              sample_net_in sample_dpath_values (parsed_as policy_partners) ["Policy"]
              sample_item sample_store))
  = [add_issue 0 "Friendly Cross Account Access" sample_item
       (Some "Access provided to principal:arn:aws:iam::222222222222:role/foo.")].
Proof.
  destruct (check_friendly_cross_account_findings sample_db sample_ARN _ sample_IPNetwork
              sample_net_in sample_dpath_values (parsed_as policy_partners) ["Policy"]
              sample_item sample_store sample_friendly sample_thirdparty sample_home)
    as [_ Hc].
  - exact sample_registry.
  - reflexivity.
  - intros policy who Hp. revert who. apply Forall_forall.
    revert policy Hp. apply Forall_forall. compute_done.
  - rewrite Hc. vm_compute. reflexivity.
Defined.

Lemma check_thirdparty_cross_account_findings_witness :
  List.filter is_thirdparty_issue
    (calls (check_thirdparty_cross_account sample_db sample_ARN sample_IPNetwork
              sample_net_in sample_dpath_values (parsed_as policy_partners) ["Policy"]
              sample_item sample_store))
  = [add_issue 0 "Friendly Third Party Cross Account Access" sample_item
       (Some "Access provided to principal:arn:aws:iam::333333333333:role/bar.")].
Proof.
  destruct (check_thirdparty_cross_account_findings sample_db sample_ARN _ sample_IPNetwork
              sample_net_in sample_dpath_values (parsed_as policy_partners) ["Policy"]
              sample_item sample_store sample_friendly sample_thirdparty sample_home)
    as [_ Hc].
  - exact sample_registry.
  - reflexivity.
  - intros policy who Hp. revert who. apply Forall_forall.
    revert policy Hp. apply Forall_forall. compute_done.
  - rewrite Hc. vm_compute. reflexivity.
Defined.

Lemma userid_session_ignored_witness :
  inspect_who sample_db sample_ARN sample_IPNetwork sample_net_in
    (mkWho "userid" "AROAEXAMPLEID:deploy-session") sample_item sample_store
  = inspect_who sample_db sample_ARN sample_IPNetwork sample_net_in
      (mkWho "userid" "AROAEXAMPLEID") sample_item sample_store.
Proof.
  exact (userid_session_ignored sample_db sample_ARN _ sample_IPNetwork sample_net_in
           "AROAEXAMPLEID" "deploy-session" sample_item sample_store eq_refl).
Defined.

Lemma lookup_after_add_witness :
  ∃ tiers,
    result (inspect_who_generic "vpce" (Some "vpce-1") (Some sample_home)
              (store (add_to "vpce" (Some "vpce-1") "222222222222" sample_store)))
      = inr tiers ∧
    "FRIENDLY" ∈ tiers.
Proof.
  destruct (lookup_after_add "vpce" "vpce-1" "222222222222" sample_store
              sample_friendly sample_thirdparty sample_home) as (tiers & Hr & Hmem).
  - compute_done.
  - discriminate.
  - exact sample_registry.
  - exists tiers. split; [exact Hr|].
    apply Hmem. exists "222222222222". split; [by left|]. reflexivity.
Defined.

Lemma cidr_lookup_after_add_witness :
  ∃ tiers,
    result (inspect_who_cidr sample_IPNetwork sample_net_in "172.16.5.0/24"
              (Some sample_home)
              (store (add_to "cidr" (Some "172.16.0.0/12") "000000000000" sample_store)))
      = inr tiers ∧
    "SAME" ∈ tiers.
Proof.
  destruct (cidr_lookup_after_add _ sample_IPNetwork sample_net_in sample_store
              sample_friendly sample_thirdparty sample_home
              "172.16.0.0/12" "000000000000" "172.16.5.0/24"
              (mkNet4 2886729728 2887778303) (mkNet4 2886731008 2886731263))
    as (tiers & Hr & _ & Hsame).
  - exact sample_registry.
  - discriminate.
  - reflexivity.
  - reflexivity.
  - reflexivity.
  - exact sample_cidr_readable.
  - exists tiers. split; [exact Hr|]. by apply Hsame.
Defined.

Lemma s3_arn_by_bucket_name_witness :
  result (inspect_who sample_db sample_ARN sample_IPNetwork sample_net_in
            (mkWho "principal" "arn:aws:s3:::elsewhere") sample_item sample_store)
  = inr (PySet {["UNKNOWN"]}).
Proof.
  apply (s3_arn_by_bucket_name sample_db sample_ARN _ sample_IPNetwork sample_net_in
           (mkWho "principal" "arn:aws:s3:::elsewhere") sample_item sample_store).
  - right. reflexivity.
  - discriminate.
  - reflexivity.
  - intros n Hn. vm_compute in Hn. injection Hn as <-. reflexivity.
Defined.

Lemma inspect_who_classifies_witness :
  ∃ tiers,
    result (inspect_who sample_db sample_ARN sample_IPNetwork sample_net_in
              (mkWho "cidr" "10.1.0.0/16") sample_item sample_store)
      = inr (PySet tiers) ∧
    tiers ≠ ∅ ∧ tiers ⊆ four_tiers.
Proof.
  apply (inspect_who_classifies sample_db sample_ARN _ sample_IPNetwork sample_net_in
           (mkWho "cidr" "10.1.0.0/16") sample_item sample_store
           sample_friendly sample_thirdparty sample_home).
  - exact sample_registry.
  - reflexivity.
  - compute_done.
  - exact sample_owned.
  - compute_done.
Defined.

Lemma prep_for_audit_completion_witness :
  result (prep_for_audit sample_db ∅) = inr tt ∧
  result (prep_for_audit sample_db_broken ∅) = inl KeyError.
Proof.
  split.
  - apply (proj1 (prep_for_audit_completion sample_db)).
    intros gateway address Hg. revert address. apply Forall_forall.
    revert gateway Hg. apply Forall_forall. compute_done.
  - apply (proj2 (prep_for_audit_completion sample_db_broken)
             (mkStoredItem "natgateway" None "333333333333" ∅
                (Some [{["public_ip" := Some "52.9.9.9"]}]))
             {["public_ip" := Some "52.9.9.9"]}).
    + apply list_elem_of_In. vm_compute. right. left. reflexivity.
    + apply list_elem_of_In. vm_compute. left. reflexivity.
    + right. reflexivity.
Defined.

Lemma no_policy_no_finding_witness :
  check_unknown_cross_account sample_db sample_ARN sample_IPNetwork sample_net_in
    sample_dpath_values (parsed_as policy_mixed) ["Policy"] (mkItem "home" ∅) ∅
  = mkOutcome (inr tt) ∅ [].
Proof.
  destruct (no_policy_no_finding sample_db sample_ARN _ sample_IPNetwork sample_net_in
              sample_dpath_values (parsed_as policy_mixed) ["Policy"] "SNS Topic"
              (fun _ => ∅) sample_json_dumps (mkItem "home" ∅) ∅)
    as (_ & _ & _ & H & _).
  - intros key docs _ Hdocs. unfold sample_dpath_values in Hdocs. cbn in Hdocs.
    rewrite lookup_empty in Hdocs. discriminate.
  - exact H.
Defined.

Lemma unknown_check_skips_internet_accessible_witness :
  check_unknown_cross_account sample_db sample_ARN sample_IPNetwork sample_net_in
    sample_dpath_values (parsed_as policy_exposed) ["Policy"] sample_item ∅
  = mkOutcome (inr tt) ∅ [].
Proof.
  apply (unknown_check_skips_internet_accessible sample_db sample_ARN _ sample_IPNetwork
           sample_net_in sample_dpath_values (parsed_as policy_exposed) ["Policy"]
           sample_item ∅).
  apply Forall_forall. compute_done.
Defined.

Lemma inspect_who_account_errors_witness :
  result (inspect_who_account (Some "222222222222") (Some sample_home) ∅) = inl KeyError.
Proof.
  destruct (inspect_who_account_errors (Some "222222222222") sample_home ∅)
    as (_ & H & _).
  - discriminate.
  - apply H; [discriminate|reflexivity].
Defined.

Lemma lookup_before_build_blocks_build_witness :
  prep_for_audit sample_db
    (store (inspect_who sample_db sample_ARN sample_IPNetwork sample_net_in
              (mkWho "vpce" "vpce-1") sample_item ∅))
  = mkOutcome (inr tt)
      (store (inspect_who sample_db sample_ARN sample_IPNetwork sample_net_in
                (mkWho "vpce" "vpce-1") sample_item ∅)) [].
Proof.
  destruct (lookup_before_build_blocks_build sample_db sample_ARN _ sample_IPNetwork
              sample_net_in (mkWho "vpce" "vpce-1") sample_item) as (_ & H & _).
  - compute_done.
  - exact H.
Defined.

Lemma empty_sns_policy_only_finding_witness :
  calls (check_snstopicpolicy_empty (mkItem "home" {["policy" := JDict []]}) sample_store)
    = [add_issue 1 "SNS Topic Policy is empty"
         (mkItem "home" {["policy" := JDict []]}) None] ∧
  calls (check_unknown_cross_account sample_db sample_ARN sample_IPNetwork sample_net_in
           sample_dpath_values (parsed_as policy_mixed) ["policy"]
           (mkItem "home" {["policy" := JDict []]}) sample_store) = [].
Proof.
  destruct (empty_sns_policy_only_finding sample_db sample_ARN _ sample_IPNetwork
              sample_net_in sample_dpath_values (parsed_as policy_mixed) ["policy"]
              "SNS Topic" (fun _ => ∅) sample_json_dumps
              (mkItem "home" {["policy" := JDict []]}) sample_store)
    as (H1 & _ & _ & _ & H2 & _).
  - reflexivity.
  - reflexivity.
  - right. reflexivity.
  - split; [exact H1|exact H2].
Defined.

Lemma s3_table_after_build_witness :
  owner_of (store (prep_for_audit sample_db ∅)) "s3" "bucket1" "222222222222".
Proof.
  apply (proj2 (s3_table_after_build sample_db "bucket1" "222222222222")).
  exists (mkStoredItem "s3" (Some "bucket1") "222222222222" ∅ None).
  split; [apply list_elem_of_In; left; reflexivity|].
  repeat split. discriminate.
Defined.

Lemma userid_table_after_build_witness :
  owner_of
    (store (prep_for_audit
              (mkDatabase []
                 [mkStoredItem "iamrole" None "222222222222"
                    {["RoleId" := "AROAEXAMPLEID"]} None] [])
              ∅))
    "userid" "AROAEXAMPLEID" "222222222222".
Proof.
  apply (proj2 (userid_table_after_build _ "AROAEXAMPLEID" "222222222222")).
  exists (mkStoredItem "iamrole" None "222222222222" {["RoleId" := "AROAEXAMPLEID"]} None).
  split; [apply list_elem_of_In; left; reflexivity|].
  split; [right; split; reflexivity|]. split; [discriminate|reflexivity].
Defined.
